(** * Role manifests of fissile: loading, validation and dev versions

    A shallow embedding of the role-manifest code of package [model]: the
    data model, the validation passes run by [LoadRoleManifest], role
    selection and the content signatures used as build keys.

    Conventions of the embedding:
    - a Go [string] is a [string] (a sequence of bytes), [<] on strings is
      the byte-wise lexicographic order ([String.ltb]);
    - a Go [map[string]T] is a [gmap string T]; a map that may be [nil] is an
      [option (gmap string T)];
    - a pointer that may be [nil] is an [option]; dereferencing [nil] is a
      run-time panic, modelled by the result [None] of the function
      (functions that can panic return an [option]);
    - a Go function returning [(T, error)] returns a pair whose second
      component is an [option error];
    - slices are lists, except for the one place where aliasing of the
      backing array matters ([GetRoleManifestDevPackageVersion]), which is
      modelled over an explicit store of backing arrays. *)

From stdpp Require Import gmap strings list sorting fin_maps.
From Stdlib Require Import ZArith.


(** ** Go run-time conventions *)

(** The value of type [error]: its message. *)
Inductive error := Err (msg : string).

(** Values passed as [interface{}] to the validation constructors. *)
Inductive Value :=
| VStr (s : string)
| VStrs (l : list string)
| VInt (z : Z).

#[global] Instance Value_eq_dec : EqDecision Value.
Proof. solve_decision. Defined.

(** ** Package [validation] (imported by the source) *)

(** Modelled from the spec: the [validation] package is not part of the
    file; a finding is a (field path, offending value, human-readable
    message) triple, tagged with the constructor that built it. *)
Inductive ErrorType :=
| ErrorTypeNotFound
| ErrorTypeRequired
| ErrorTypeInvalid
| ErrorTypeForbidden.

#[global] Instance ErrorType_eq_dec : EqDecision ErrorType.
Proof. solve_decision. Defined.

Record Error := mkError {
  e_Type : ErrorType;
  e_Field : string;
  e_BadValue : Value;
  e_Detail : string
}.

#[global] Instance Error_eq_dec : EqDecision Error.
Proof. solve_decision. Defined.

Abbreviation ErrorList := (list Error).

Module validation.
(** Modelled from the spec: the four constructors of findings the source
    calls, each storing its arguments in the triple. *)
Definition Invalid (field : string) (value : Value) (detail : string) : Error :=
  mkError ErrorTypeInvalid field value detail.
Definition Required (field : string) (detail : string) : Error :=
  mkError ErrorTypeRequired field (VStr "") detail.
Definition NotFound (field : string) (value : string) : Error :=
  mkError ErrorTypeNotFound field (VStr value) "".
Definition Forbidden (field : string) (detail : string) : Error :=
  mkError ErrorTypeForbidden field (VStr "") detail.
End validation.

(** The checks of the [validation] package whose code is not in the file,
    taken as parameters: the range and protocol checks of exposed ports,
    the sign check, and the rendering of a list of findings. *)
Class ValidationPkg := {
  ValidateNonnegativeField : Z → string → ErrorList;
  ValidatePortRange : string → string → ErrorList;
  ValidateProtocol : string → string → ErrorList;
  ErrorList_Errors : ErrorList → string
}.

(** ** Data model *)

Definition RoleType := string.
Definition RoleTypeBoshTask : RoleType := "bosh-task".
Definition RoleTypeBosh : RoleType := "bosh".
Definition RoleTypeDocker : RoleType := "docker".

Definition FlightStage := string.
Definition FlightStagePreFlight : FlightStage := "pre-flight".
Definition FlightStageFlight : FlightStage := "flight".
Definition FlightStagePostFlight : FlightStage := "post-flight".
Definition FlightStageManual : FlightStage := "manual".

(** Modelled from the spec: [Package], [JobProperty], [Job] and [Release]
    are declared in other files of the package; a package has a name and a
    content hash, a job a name, a content hash, its ordered properties and
    the packages it depends on, and a release resolves a job name to a job
    or fails. *)
Record Package := mkPackage {
  pkg_Name : string;
  pkg_SHA1 : string
}.

Record JobProperty := mkJobProperty {
  prop_Name : string
}.

Record Job := mkJob {
  job_Name : string;
  job_SHA1 : string;
  job_Properties : list JobProperty;
  job_Packages : list Package
}.

Record Release := mkRelease {
  rel_Name : string;
  rel_LookupJob : string → Job + error
}.

Record RoleRunScaling := mkRoleRunScaling {
  scaling_Min : Z;
  scaling_Max : Z
}.

Record RoleRunVolume := mkRoleRunVolume {
  vol_Path : string;
  vol_Tag : string;
  vol_Size : Z
}.

Record RoleRunExposedPort := mkRoleRunExposedPort {
  port_Name : string;
  port_Protocol : string;
  port_External : string;
  port_Internal : string;
  port_Public : bool
}.

Record HealthCheck := mkHealthCheck {
  hc_URL : string;
  hc_Headers : option (gmap string string);
  hc_Command : list string;
  hc_Port : Z
}.

Record RoleRun := mkRoleRun {
  run_Scaling : option RoleRunScaling;
  run_Capabilities : list string;
  run_PersistentVolumes : list RoleRunVolume;
  run_SharedVolumes : list RoleRunVolume;
  run_Memory : Z;
  run_VirtualCPUs : Z;
  run_ExposedPorts : list RoleRunExposedPort;
  run_FlightStage : FlightStage;
  run_HealthCheck : option HealthCheck;
  run_Environment : list string
}.

Record ConfigurationVariableGenerator := mkGenerator {
  gen_ID : string;
  gen_Type : string;
  gen_ValueType : string
}.

Record ConfigurationVariable := mkConfigurationVariable {
  cv_Name : string;
  cv_Default : option Value;
  cv_Description : string;
  cv_Generator : option ConfigurationVariableGenerator;
  cv_Private : bool
}.

(** [CVMap]: variable name to [*ConfigurationVariable]; the pointer may be
    [nil] ([validateTemplateUsage] stores [nil] placeholders). *)
Abbreviation CVMap := (gmap string (option ConfigurationVariable)).

Record Configuration := mkConfiguration {
  conf_Templates : option (gmap string string);
  conf_Variables : list ConfigurationVariable
}.

Record roleJob := mkRoleJob {
  rj_Name : string;
  rj_ReleaseName : string
}.

(** What a role reads through its back-pointer [rolesManifest]: the path of
    the manifest file and the global configuration. Both are fixed before
    the pointer is set and never change afterwards, so the role holds them
    by value. *)
Record ManifestRef := mkManifestRef {
  ref_manifestFilePath : string;
  ref_Configuration : option Configuration
}.

Record Role := mkRole {
  r_Name : string;
  r_Jobs : list Job;
  r_EnvironScripts : list string;
  r_Scripts : list string;
  r_PostConfigScripts : list string;
  r_Type : RoleType;
  r_JobNameList : list roleJob;
  r_Configuration : option Configuration;
  r_Run : option RoleRun;
  r_Tags : list string;
  r_rolesManifest : option ManifestRef
}.

Abbreviation Roles := (list Role).

Record RoleManifest := mkRoleManifest {
  m_Roles : Roles;
  m_Configuration : option Configuration;
  m_manifestFilePath : string;
  m_rolesByName : gmap string Role
}.

(** Field assignments through a pointer. *)
Definition set_FlightStage (fs : FlightStage) (run : RoleRun) : RoleRun :=
  mkRoleRun (run_Scaling run) (run_Capabilities run) (run_PersistentVolumes run)
    (run_SharedVolumes run) (run_Memory run) (run_VirtualCPUs run)
    (run_ExposedPorts run) fs (run_HealthCheck run) (run_Environment run).

Definition set_Environment (env : list string) (run : RoleRun) : RoleRun :=
  mkRoleRun (run_Scaling run) (run_Capabilities run) (run_PersistentVolumes run)
    (run_SharedVolumes run) (run_Memory run) (run_VirtualCPUs run)
    (run_ExposedPorts run) (run_FlightStage run) (run_HealthCheck run) env.

Definition set_Run (run : option RoleRun) (r : Role) : Role :=
  mkRole (r_Name r) (r_Jobs r) (r_EnvironScripts r) (r_Scripts r)
    (r_PostConfigScripts r) (r_Type r) (r_JobNameList r) (r_Configuration r)
    run (r_Tags r) (r_rolesManifest r).

Definition set_Type (t : RoleType) (r : Role) : Role :=
  mkRole (r_Name r) (r_Jobs r) (r_EnvironScripts r) (r_Scripts r)
    (r_PostConfigScripts r) t (r_JobNameList r) (r_Configuration r)
    (r_Run r) (r_Tags r) (r_rolesManifest r).

Definition set_Jobs (jobs : list Job) (r : Role) : Role :=
  mkRole (r_Name r) jobs (r_EnvironScripts r) (r_Scripts r)
    (r_PostConfigScripts r) (r_Type r) (r_JobNameList r) (r_Configuration r)
    (r_Run r) (r_Tags r) (r_rolesManifest r).

Definition set_Configuration (c : option Configuration) (r : Role) : Role :=
  mkRole (r_Name r) (r_Jobs r) (r_EnvironScripts r) (r_Scripts r)
    (r_PostConfigScripts r) (r_Type r) (r_JobNameList r) c
    (r_Run r) (r_Tags r) (r_rolesManifest r).

Definition set_rolesManifest (ref : option ManifestRef) (r : Role) : Role :=
  mkRole (r_Name r) (r_Jobs r) (r_EnvironScripts r) (r_Scripts r)
    (r_PostConfigScripts r) (r_Type r) (r_JobNameList r) (r_Configuration r)
    (r_Run r) (r_Tags r) ref.

(** The role with its run-environment list emptied (used to tell the
    findings raised on environment grounds from the others). *)
Definition clear_Environment (r : Role) : Role :=
  set_Run (set_Environment [] <$> r_Run r) r.

(** ** Role-run validation *)

Section role_run.
Context {V : ValidationPkg}.

(** [validateHealthCheck]: reports a role with conflicting health checks. *)
Definition validateHealthCheck (role : Role) : option ErrorList :=
  run ← r_Run role;
  match run_HealthCheck run with
  | Some hc =>
      let checks : list string := [] in
      let checks := if decide (hc_URL hc ≠ "") then checks ++ ["url"] else checks in
      let checks :=
        if decide (0 < length (hc_Command hc))%nat then checks ++ ["command"] else checks in
      let checks := if decide (hc_Port hc ≠ 0%Z) then checks ++ ["port"] else checks in
      if decide (length checks ≠ 1%nat)
      then Some [validation.Invalid
                   ("roles[" +:+ r_Name role +:+ "].run.healthcheck")
                   (VStrs checks) "Expected exactly one of url, command, or port"]
      else Some []
  | None => Some []
  end.

(** [normalizeFlightStage]: reports a bad flight stage and stores the
    default in a role without one. *)
Definition normalizeFlightStage (role : Role) : option (Role * ErrorList) :=
  run ← r_Run role;
  let fs := run_FlightStage run in
  if decide (fs = "") then
    Some (set_Run (Some (set_FlightStage FlightStageFlight run)) role, [])
  else if decide (fs = FlightStagePreFlight) then Some (role, [])
  else if decide (fs = FlightStageFlight) then Some (role, [])
  else if decide (fs = FlightStagePostFlight) then Some (role, [])
  else if decide (fs = FlightStageManual) then Some (role, [])
  else Some (role, [validation.Invalid
                      ("roles[" +:+ r_Name role +:+ "].run.flight-stage")
                      (VStr fs)
                      "Expected one of flight, manual, post-flight, or pre-flight"]).

(** The body of the loop over [role.Run.ExposedPorts]. *)
Definition validateExposedPort (roleName : string) (port : RoleRunExposedPort) : ErrorList :=
  (if decide (port_Name port = "")
   then [validation.Required ("roles[" +:+ roleName +:+ "].run.exposed-ports.name") ""]
   else [])
  ++ ValidatePortRange (port_External port)
       ("roles[" +:+ roleName +:+ "].run.exposed-ports[" +:+ port_Name port +:+ "].external")
  ++ ValidatePortRange (port_Internal port)
       ("roles[" +:+ roleName +:+ "].run.exposed-ports[" +:+ port_Name port +:+ "].internal")
  ++ ValidateProtocol (port_Protocol port)
       ("roles[" +:+ roleName +:+ "].run.exposed-ports[" +:+ port_Name port +:+ "].protocol").

(** The finding for one undeclared run-environment name of a docker role. *)
Definition envNotDeclared (roleName envVar : string) : Error :=
  validation.NotFound ("roles[" +:+ roleName +:+ "].run.env")
    ("No variable declaration of '" +:+ envVar +:+ "'").

(** The finding for a non-docker role with run-environment names. *)
Definition envForbidden (roleName : string) : Error :=
  validation.Forbidden ("roles[" +:+ roleName +:+ "].run.env")
    "Non-docker role declares bogus parameters".

(** [validateRoleRun]: the role as the call leaves it and the findings. *)
Definition validateRoleRun (role : Role) (rolesManifest : RoleManifest)
    (declared : CVMap) : option (Role * ErrorList) :=
  let allErrs : ErrorList := [] in
  match r_Run role with
  | None =>
      Some (role, allErrs ++ [validation.Required ("roles[" +:+ r_Name role +:+ "].run") ""])
  | Some _ =>
      '(role, errs) ← normalizeFlightStage role;
      let allErrs := allErrs ++ errs in
      errs ← validateHealthCheck role;
      let allErrs := allErrs ++ errs in
      run ← r_Run role;
      let allErrs := allErrs ++ ValidateNonnegativeField (run_Memory run)
                       ("roles[" +:+ r_Name role +:+ "].run.memory") in
      let allErrs := allErrs ++ ValidateNonnegativeField (run_VirtualCPUs run)
                       ("roles[" +:+ r_Name role +:+ "].run.virtual-cpus") in
      let allErrs :=
        foldl (λ acc port, acc ++ validateExposedPort (r_Name role) port)
          allErrs (run_ExposedPorts run) in
      if decide (length (run_Environment run) = 0%nat) then Some (role, allErrs)
      else if decide (r_Type role = RoleTypeDocker) then
        Some (role,
              foldl (λ acc envVar,
                       match declared !! envVar with
                       | Some _ => acc
                       | None => acc ++ [envNotDeclared (r_Name role) envVar]
                       end) allErrs (run_Environment run))
      else Some (role, allErrs ++ [envForbidden (r_Name role)])
  end.
End role_run.

(** ** Loops, map iteration and sorting *)

(** The outcome of a loop body or of a loop: go on with a new state,
    [return] from the enclosing function, or panic. *)
Inductive ctl (R S : Type) :=
| Next (s : S)
| Return (r : R)
| Panic.
Arguments Next {R S} s.
Arguments Return {R S} r.
Arguments Panic {R S}.

(** [for _, a := range l { body }] over a slice. *)
Fixpoint forEach {A R S : Type} (l : list A) (body : A → S → ctl R S) (s : S) : ctl R S :=
  match l with
  | [] => Next s
  | a :: l' =>
      match body a s with
      | Next s' => forEach l' body s'
      | Return r => Return r
      | Panic => Panic
      end
  end.

(** The same loop when the body can only go on or panic. *)
Fixpoint foldM {A S : Type} (body : S → A → option S) (s : S) (l : list A) : option S :=
  match l with
  | [] => Some s
  | a :: l' => s' ← body s a; foldM body s' l'
  end.

(** The order in which [range] visits the entries of a map is left open by
    the language: any enumeration of the entries can occur. *)
Class MapRange := {
  map_range : ∀ {V : Type}, gmap string V → list (string * V);
  map_range_perm : ∀ {V : Type} (m : gmap string V), map_range m ≡ₚ map_to_list m
}.

(** Ranging over a map that may be [nil] (no iteration then). *)
Definition map_range_nil {order : MapRange} {V : Type} (m : option (gmap string V)) : list (string * V) :=
  match m with
  | Some m => map_range m
  | None => []
  end.

(** Reading a map that may be [nil]. *)
Definition lookup_nil {V : Type} (m : option (gmap string V)) (k : string) : option V :=
  match m with
  | Some m => m !! k
  | None => None
  end.

(** [sort.Sort] on a slice whose [Less] is given: the result is a
    rearrangement of the input in which no element is [Less] than its
    predecessor. The algorithm (it is not stable) is left open. *)
Class SortInterface (A : Type) (Less : A → A → bool) := {
  sort_Sort : list A → list A;
  sort_Sort_perm : ∀ l, sort_Sort l ≡ₚ l;
  sort_Sort_sorted : ∀ l, Sorted (λ x y, Less y x = false) (sort_Sort l)
}.

(** [sort.Strings]: equal strings cannot be told apart, so every sorting
    algorithm returns the same slice. *)
Definition sort_Strings (l : list string) : list string := merge_sort String.le l.

(** [Less] of [Roles]. *)
Definition Roles_Less (a b : Role) : bool := String.ltb (r_Name a) (r_Name b).

(** Modelled from the spec: [Less] of [Packages] (declared in another file
    of the package); packages are sortable by name. *)
Definition Packages_Less (a b : Package) : bool := String.ltb (pkg_Name a) (pkg_Name b).

(** ** Manifest-wide validation passes *)

(** Functions of package [model] whose code is in other files: the
    extraction of the variable names a template refers to (it fails on a
    malformed template) and the map of the declared variables by name,
    whose values are pointers to declarations (never [nil]). *)
Class ModelPkg := {
  parseTemplate : string → list string + error;
  MakeMapOfVariables : RoleManifest → gmap string ConfigurationVariable
}.

Section passes.
Context {M : ModelPkg} {order : MapRange}.

(** [validateVariableSorting]: reports all variables which are out of order. *)
Definition validateVariableSorting (variables : list ConfigurationVariable) : ErrorList :=
  let allErrs : ErrorList := [] in
  let previousName := "" in
  fst (foldl (λ '(allErrs, previousName) cv,
                ((if String.ltb (cv_Name cv) previousName
                  then allErrs ++ [validation.Invalid "configuration.variables"
                                     (VStr previousName)
                                     ("Does not sort before '" +:+ cv_Name cv +:+ "'")]
                  else allErrs),
                 cv_Name cv))
         (allErrs, previousName) variables).

(** The finding for a declared variable no template uses. *)
Definition unusedFinding (cv : string) : Error :=
  validation.NotFound "configuration.variables" ("No templates using '" +:+ cv +:+ "'").

(** The loop over the variables of one template in
    [validateVariableUsage]. *)
Definition useVariables (allErrs : ErrorList) (varsInTemplate : list string)
    (unusedConfigs : CVMap) : ctl ErrorList CVMap :=
  forEach varsInTemplate
    (λ envVar unusedConfigs,
       let unusedConfigs :=
         match unusedConfigs !! envVar with
         | Some _ => delete envVar unusedConfigs
         | None => unusedConfigs
         end in
       if decide (size unusedConfigs = 0) then Return allErrs else Next unusedConfigs)
    unusedConfigs.

(** [validateVariableUsage]: reports all non-private variables which are
    not used by at least one template. *)
Definition validateVariableUsage (roleManifest : RoleManifest) : option ErrorList :=
  let allErrs : ErrorList := [] in
  let unusedConfigs : CVMap := Some <$> MakeMapOfVariables roleManifest in
  if decide (size unusedConfigs = 0) then Some allErrs else
  match
    forEach (m_Roles roleManifest) (λ role,
      forEach (r_Jobs role) (λ job,
        forEach (job_Properties job) (λ property unusedConfigs,
          let propertyName := "properties." +:+ prop_Name property in
          match r_Configuration role with
          | None => Panic
          | Some conf =>
              match lookup_nil (conf_Templates conf) propertyName with
              | Some template =>
                  match parseTemplate template with
                  | inr _ => Next unusedConfigs
                  | inl varsInTemplate => useVariables allErrs varsInTemplate unusedConfigs
                  end
              | None => Next unusedConfigs
              end
          end))) unusedConfigs
  with
  | Return r => Some r
  | Panic => None
  | Next unusedConfigs =>
      match m_Configuration roleManifest with
      | None => None
      | Some conf =>
          match
            forEach (map_range_nil (conf_Templates conf)) (λ '(_, template) unusedConfigs,
              match parseTemplate template with
              | inr _ => Next unusedConfigs
              | inl varsInTemplate => useVariables allErrs varsInTemplate unusedConfigs
              end) unusedConfigs
          with
          | Return r => Some r
          | Panic => None
          | Next unusedConfigs =>
              foldM (λ allErrs '(cv, cvar),
                       cvar ← (cvar : option ConfigurationVariable);
                       if cv_Private cvar then Some allErrs
                       else Some (allErrs ++ [unusedFinding cv]))
                allErrs (map_range unusedConfigs)
          end
      end
  end.

(** The two findings for a variable without declaration: the first when
    a template of a role refers to it, the second for a global template. *)
Definition undeclaredInRole (envVar : string) : Error :=
  validation.NotFound "configuration.variables" ("No declaration of '" +:+ envVar +:+ "'").

Definition undeclaredInGlobal (envVar : string) : Error :=
  validation.NotFound "configuration.templates"
    ("No variable declaration of '" +:+ envVar +:+ "'").

(** The loop over the variables of one template in
    [validateTemplateUsage]; [report] builds the finding. *)
Definition checkVariables (report : string → Error) (varsInTemplate : list string)
    (st : CVMap * ErrorList) : CVMap * ErrorList :=
  foldl (λ '(declaredConfigs, allErrs) envVar,
           match declaredConfigs !! envVar with
           | Some _ => (declaredConfigs, allErrs)
           | None => (<[envVar := None]> declaredConfigs, allErrs ++ [report envVar])
           end) st varsInTemplate.

(** [validateTemplateUsage]: reports all undeclared variables. *)
Definition validateTemplateUsage (roleManifest : RoleManifest) : option ErrorList :=
  let allErrs : ErrorList := [] in
  let declaredConfigs : CVMap := Some <$> MakeMapOfVariables roleManifest in
  let declaredConfigs :=
    <["IP_ADDRESS" := Some (mkConfigurationVariable "IP_ADDRESS" None "" None false)]>
      declaredConfigs in
  let declaredConfigs :=
    <["DNS_RECORD_NAME" := Some (mkConfigurationVariable "DNS_RECORD_NAME" None "" None false)]>
      declaredConfigs in
  st ← foldM (λ st role,
         foldM (λ st job,
           foldM (λ st property,
             let propertyName := "properties." +:+ prop_Name property in
             conf ← r_Configuration role;
             match lookup_nil (conf_Templates conf) propertyName with
             | Some template =>
                 match parseTemplate template with
                 | inr _ => Some st
                 | inl varsInTemplate => Some (checkVariables undeclaredInRole varsInTemplate st)
                 end
             | None => Some st
             end) st (job_Properties job)) st (r_Jobs role))
       (declaredConfigs, allErrs) (m_Roles roleManifest);
  conf ← m_Configuration roleManifest;
  let st :=
    foldl (λ st '(_, template),
             match parseTemplate template with
             | inr _ => st
             | inl varsInTemplate => checkVariables undeclaredInGlobal varsInTemplate st
             end) st (map_range_nil (conf_Templates conf)) in
  Some (snd st).

(** [validateNonTemplates]: reports the global templates which use no
    variable. *)
Definition validateNonTemplates (roleManifest : RoleManifest) : option ErrorList :=
  let allErrs : ErrorList := [] in
  conf ← m_Configuration roleManifest;
  Some (foldl (λ allErrs '(property, template),
                 match parseTemplate template with
                 | inr _ => allErrs
                 | inl varsInTemplate =>
                     if decide (length varsInTemplate = 0)
                     then allErrs ++ [validation.Invalid "configuration.templates"
                                        (VStr template)
                                        ("Using '" +:+ property +:+ "' as a constant")]
                     else allErrs
                 end) allErrs (map_range_nil (conf_Templates conf))).
End passes.

(** ** Loading a manifest *)

(** What the loader takes from outside the package: reading a file, the
    YAML decoding of the two tagged fields of a [RoleManifest] ([roles] and
    [configuration]), and [fmt]'s expansion of a format string that comes
    without operands. *)
Class LoaderEnv := {
  ioutil_ReadFile : string → string + error;
  yaml_Unmarshal : string → (Roles * option Configuration) + error;
  fmt_Sprintf0 : string → string
}.

Definition set_Roles (roles : Roles) (m : RoleManifest) : RoleManifest :=
  mkRoleManifest roles (m_Configuration m) (m_manifestFilePath m) (m_rolesByName m).

Definition set_Configuration_m (c : option Configuration) (m : RoleManifest) : RoleManifest :=
  mkRoleManifest (m_Roles m) c (m_manifestFilePath m) (m_rolesByName m).

Definition set_rolesByName (idx : gmap string Role) (m : RoleManifest) : RoleManifest :=
  mkRoleManifest (m_Roles m) (m_Configuration m) (m_manifestFilePath m) idx.

Section loading.
Context {V : ValidationPkg} {M : ModelPkg} {order : MapRange} {L : LoaderEnv}.

(** The loop building [mappedReleases]: a release name seen twice ends
    the load. *)
Definition mapReleases (releases : list Release) : gmap string Release + error :=
  foldl (λ acc release,
           match acc with
           | inr err => inr err
           | inl mappedReleases =>
               match mappedReleases !! rel_Name release with
               | Some _ =>
                   inr (Err ("Error - release " +:+ rel_Name release
                             +:+ " has been loaded more than once"))
               | None => inl (<[rel_Name release := release]> mappedReleases)
               end
           end) (inl ∅) releases.

(** The finding for a role type that is none of the three. *)
Definition badRoleType (role : Role) : Error :=
  validation.Invalid ("roles[" +:+ r_Name role +:+ "].type")
    (VStr (r_Type role)) "Excpected one of bosh, bosh-task, or docker".

(** The first loop of [LoadRoleManifest],
    [for i := len(rolesManifest.Roles) - 1; i >= 0; i--]: [n] is [i + 1].
    The roles are held by pointer: what the body and [validateRoleRun]
    assign to [role] is seen at index [i] as long as the role stays in the
    slice. *)
Fixpoint roleTypeLoop (n : nat) (declaredConfigs : CVMap)
    (st : RoleManifest * ErrorList) : option (RoleManifest * ErrorList) :=
  match n with
  | O => Some st
  | S i =>
      let '(rolesManifest, allErrs) := st in
      role ← m_Roles rolesManifest !! i;
      if decide (r_Type role = "") then
        let role := set_Type RoleTypeBosh role in
        '(role, errs) ← validateRoleRun role rolesManifest declaredConfigs;
        roleTypeLoop i declaredConfigs
          (set_Roles (<[i := role]> (m_Roles rolesManifest)) rolesManifest, allErrs ++ errs)
      else if decide (r_Type role = RoleTypeBosh ∨ r_Type role = RoleTypeBoshTask) then
        (* continue *)
        roleTypeLoop i declaredConfigs (rolesManifest, allErrs)
      else if decide (r_Type role = RoleTypeDocker) then
        let rolesManifest :=
          set_Roles (take i (m_Roles rolesManifest) ++ drop (S i) (m_Roles rolesManifest))
            rolesManifest in
        '(_, errs) ← validateRoleRun role rolesManifest declaredConfigs;
        roleTypeLoop i declaredConfigs (rolesManifest, allErrs ++ errs)
      else
        let allErrs := allErrs ++ [badRoleType role] in
        '(role, errs) ← validateRoleRun role rolesManifest declaredConfigs;
        roleTypeLoop i declaredConfigs
          (set_Roles (<[i := role]> (m_Roles rolesManifest)) rolesManifest, allErrs ++ errs)
  end.

(** The findings for a job of a role that cannot be resolved. *)
Definition releaseNotLoaded (role : Role) (rj : roleJob) : Error :=
  validation.Invalid ("roles[" +:+ r_Name role +:+ "].jobs[" +:+ rj_Name rj +:+ "]")
    (VStr (rj_ReleaseName rj)) "Referenced release is not loaded".

Definition jobLookupFailed (role : Role) (rj : roleJob) (err : error) : Error :=
  validation.Invalid ("roles[" +:+ r_Name role +:+ "].jobs[" +:+ rj_Name rj +:+ "]")
    (VStr (rj_ReleaseName rj)) (let 'Err msg := err in msg).

(** The loop over [role.JobNameList]: the jobs resolved and the findings. *)
Definition resolveJobs (mappedReleases : gmap string Release) (role : Role)
    (allErrs : ErrorList) : list Job * ErrorList :=
  foldl (λ '(jobs, allErrs) rj,
           match mappedReleases !! rj_ReleaseName rj with
           | None => (jobs, allErrs ++ [releaseNotLoaded role rj])
           | Some release =>
               match rel_LookupJob release (rj_Name rj) with
               | inr err => (jobs, allErrs ++ [jobLookupFailed role rj err])
               | inl job => (jobs ++ [job], allErrs)
               end
           end) ([], allErrs) (r_JobNameList role).

(** [calculateRoleConfigurationTemplates]: the templates of the role laid
    over the global ones. *)
Definition calculateRoleConfigurationTemplates (r : Role) : option Role :=
  let conf := default (mkConfiguration None []) (r_Configuration r) in
  let conf := mkConfiguration (Some (default ∅ (conf_Templates conf))) (conf_Variables conf) in
  let roleConfigs : gmap string string := ∅ in
  ref ← r_rolesManifest r;
  gconf ← ref_Configuration ref;
  let roleConfigs :=
    foldl (λ acc '(k, v), <[k := v]> acc) roleConfigs (map_range_nil (conf_Templates gconf)) in
  let roleConfigs :=
    foldl (λ acc '(k, v), <[k := v]> acc) roleConfigs (map_range_nil (conf_Templates conf)) in
  Some (set_Configuration (Some (mkConfiguration (Some roleConfigs) (conf_Variables conf))) r).

(** The body of the second loop of [LoadRoleManifest]: the state is the
    roles already handled, the index by name and the findings. *)
Definition resolveRole (mappedReleases : gmap string Release) (rolesManifest : RoleManifest)
    (st : Roles * gmap string Role * ErrorList) (role : Role)
    : option (Roles * gmap string Role * ErrorList) :=
  let '(done, rolesByName, allErrs) := st in
  let role :=
    set_rolesManifest
      (Some (mkManifestRef (m_manifestFilePath rolesManifest)
               (m_Configuration rolesManifest))) role in
  let '(jobs, allErrs) := resolveJobs mappedReleases role allErrs in
  let role := set_Jobs jobs role in
  role ← calculateRoleConfigurationTemplates role;
  Some (done ++ [role], <[r_Name role := role]> rolesByName, allErrs).

(** The second loop of [LoadRoleManifest], over the roles that are left. *)
Definition resolveRoles (mappedReleases : gmap string Release) (rolesManifest : RoleManifest)
    (allErrs : ErrorList) : option (Roles * gmap string Role * ErrorList) :=
  foldM (resolveRole mappedReleases rolesManifest) ([], ∅, allErrs) (m_Roles rolesManifest).

(** The manifest before the loops: the decoded document, the path of the
    file, and an empty configuration or template map where the document
    has none. *)
Definition initialManifest (manifestFilePath : string) (roles : Roles)
    (configuration : option Configuration) : RoleManifest :=
  let rolesManifest := mkRoleManifest roles configuration manifestFilePath ∅ in
  let conf := default (mkConfiguration None []) (m_Configuration rolesManifest) in
  let conf := mkConfiguration (Some (default ∅ (conf_Templates conf))) (conf_Variables conf) in
  set_Configuration_m (Some conf) rolesManifest.

(** [LoadRoleManifest]: [None] is a panic; otherwise the pair returned. *)
Definition LoadRoleManifest (manifestFilePath : string) (releases : list Release)
    : option (option RoleManifest * option error) :=
  match ioutil_ReadFile manifestFilePath with
  | inr err => Some (None, Some err)
  | inl manifestContents =>
  match mapReleases releases with
  | inr err => Some (None, Some err)
  | inl mappedReleases =>
  match yaml_Unmarshal manifestContents with
  | inr err => Some (None, Some err)
  | inl (roles, configuration) =>
      let rolesManifest := initialManifest manifestFilePath roles configuration in
      let declaredConfigs : CVMap := Some <$> MakeMapOfVariables rolesManifest in
      let allErrs : ErrorList := [] in
      '(rolesManifest, allErrs) ←
        roleTypeLoop (length (m_Roles rolesManifest)) declaredConfigs (rolesManifest, allErrs);
      '(roles, rolesByName, allErrs) ← resolveRoles mappedReleases rolesManifest allErrs;
      let rolesManifest := set_rolesByName rolesByName (set_Roles roles rolesManifest) in
      conf ← m_Configuration rolesManifest;
      let allErrs := allErrs ++ validateVariableSorting (conf_Variables conf) in
      errs ← validateVariableUsage rolesManifest;
      let allErrs := allErrs ++ errs in
      errs ← validateTemplateUsage rolesManifest;
      let allErrs := allErrs ++ errs in
      errs ← validateNonTemplates rolesManifest;
      let allErrs := allErrs ++ errs in
      if decide (length allErrs ≠ 0) then
        Some (None, Some (Err (fmt_Sprintf0 (ErrorList_Errors allErrs))))
      else Some (Some rolesManifest, None)
  end end end.
End loading.

(** ** Looking roles up *)

(** [%v] of a slice of strings: the elements between brackets, separated by
    one space. *)
Definition fmt_v_strings (l : list string) : string :=
  "[" +:+ String.concat " " l +:+ "]".

(** [LookupRole]: [nil] for a name that is not in the index. *)
Definition LookupRole (m : RoleManifest) (roleName : string) : option Role :=
  m_rolesByName m !! roleName.

(** The loop of [SelectRoles]: the roles found and the names missing. *)
Definition selectLoop (m : RoleManifest) (roleNames : list string) : Roles * list string :=
  foldl (λ '(results, missingRoles) roleName,
           match m_rolesByName m !! roleName with
           | Some role => (results ++ [role], missingRoles)
           | None => (results, missingRoles ++ [roleName])
           end) ([], []) roleNames.

(** [SelectRoles]: a [nil] slice is the empty list. *)
Definition SelectRoles (m : RoleManifest) (roleNames : list string) : Roles * option error :=
  if decide (length roleNames = 0) then (m_Roles m, None)
  else
    let '(results, missingRoles) := selectLoop m roleNames in
    if decide (0 < length missingRoles)
    then ([], Some (Err ("Some roles are unknown: " +:+ fmt_v_strings missingRoles)))
    else (results, None).

(** ** Dev versions (signatures) *)

(** What the signatures take from outside the package: the SHA-1 digest of
    the bytes written to a hasher, rendered in hexadecimal; the content of
    a file ([os.Open] followed by [io.Copy], either of which can fail); and
    three functions of [path/filepath]. *)
Class SignatureEnv := {
  sha1_hex : string → string;
  readFile : string → string + error;
  filepath_IsAbs : string → bool;
  filepath_Dir : string → string;
  filepath_Join : string → string → string
}.

(** ["%s\n%s"] *)
Definition nl : string := String (Ascii.ascii_of_nat 10) "".

Section signatures.
Context {S : SignatureEnv} {order : MapRange}
  {sortPackages : SortInterface Package Packages_Less}.

(** [GetScriptPaths]: the paths to the scripts of a role, by script. *)
Definition GetScriptPaths (r : Role) : option (gmap string string) :=
  foldM (λ result scriptList,
           foldM (λ result script,
                    if filepath_IsAbs script then Some result
                    else
                      ref ← r_rolesManifest r;
                      Some (<[script :=
                                filepath_Join (filepath_Dir (ref_manifestFilePath ref)) script]>
                              result))
             result scriptList)
    (∅ : gmap string string)
    [r_EnvironScripts r; r_Scripts r; r_PostConfigScripts r].

(** The bytes [GetScriptSignatures] writes to its hasher: every file name
    followed by the content of the file; an error ends the loop. *)
Definition scriptBytes (scripts : list string) : string + error :=
  foldl (λ acc filename,
           match acc with
           | inr err => inr err
           | inl hasher =>
               let hasher := hasher +:+ filename in
               match readFile filename with
               | inr err => inr err
               | inl content => inl (hasher +:+ content)
               end
           end) (inl "") scripts.

(** [GetScriptSignatures]: the SHA1 of all of the script file names and
    contents. *)
Definition GetScriptSignatures (r : Role) : option (string * option error) :=
  paths ← GetScriptPaths r;
  let scripts := snd <$> map_range paths in
  let scripts := sort_Strings scripts in
  match scriptBytes scripts with
  | inr err => Some ("", Some err)
  | inl hasher => Some (sha1_hex hasher, None)
  end.

(** The slice [templates] of [GetTemplateSignatures] once sorted. *)
Definition templateLines (templates : option (gmap string string)) : list string :=
  sort_Strings ((λ '(k, v), k +:+ ": " +:+ v) <$> map_range_nil templates).

(** [GetTemplateSignatures]: the SHA1 of all of the templates and
    contents. *)
Definition GetTemplateSignatures (r : Role) : option (string * option error) :=
  conf ← r_Configuration r;
  let templates := templateLines (conf_Templates conf) in
  let hasher := foldl (λ hasher template, hasher +:+ template) "" templates in
  Some (sha1_hex hasher, None).

(** The string [roleSignature] that [GetRoleDevVersion] hashes in the
    end, or the error met on the way. *)
Definition roleSignatureText (r : Role) : option (string + error) :=
  let roleSignature := "" in
  let packages : list Package := [] in
  let '(roleSignature, packages) :=
    foldl (λ '(roleSignature, packages) job,
             (roleSignature +:+ nl +:+ job_SHA1 job, packages ++ job_Packages job))
      (roleSignature, packages) (r_Jobs r) in
  let packages := sort_Sort packages in
  let roleSignature :=
    foldl (λ roleSignature pkg, roleSignature +:+ nl +:+ pkg_SHA1 pkg)
      roleSignature packages in
  '(sig, err) ← GetScriptSignatures r;
  match err with
  | Some err => Some (inr err)
  | None =>
      let roleSignature := roleSignature +:+ nl +:+ sig in
      match r_Configuration r with
      | Some conf =>
          match conf_Templates conf with
          | Some _ =>
              '(sig, err) ← GetTemplateSignatures r;
              match err with
              | Some err => Some (inr err)
              | None => Some (inl (roleSignature +:+ nl +:+ sig))
              end
          | None => Some (inl roleSignature)
          end
      | None => Some (inl roleSignature)
      end
  end.

(** [GetRoleDevVersion]: the aggregate signature of all jobs and
    packages. *)
Definition GetRoleDevVersion (r : Role) : option (string * option error) :=
  text ← roleSignatureText r;
  match text with
  | inr err => Some ("", Some err)
  | inl roleSignature => Some (sha1_hex roleSignature, None)
  end.
End signatures.

(** ** The signature of a set of roles, over a store of backing arrays *)

(** A slice of roles is a window on a backing array; the arrays live in a
    store, by location. *)
Record slice := mkSlice {
  sl_array : positive;
  sl_off : nat;
  sl_len : nat
}.

Abbreviation store := (gmap positive (list Role)).

(** The elements a slice shows; [None] when its array is not in the store
    or too short. *)
Definition slice_elems (h : store) (s : slice) : option (list Role) :=
  arr ← h !! sl_array s;
  if decide (sl_off s + sl_len s ≤ length arr)
  then Some (take (sl_len s) (drop (sl_off s) arr))
  else None.

(** [append(Roles{}, elems...)]: the empty slice literal has no room, so
    the elements are copied to a new array, at a location not in use. *)
Definition append_to_empty (h : store) (elems : list Role) : store * slice :=
  let l := fresh (dom h) in
  (<[l := elems]> h, mkSlice l 0 (length elems)).

(** Writing back the elements of a slice, as the [Swap]s of a sort do. *)
Definition slice_store (h : store) (s : slice) (elems : list Role) : store :=
  match h !! sl_array s with
  | Some arr =>
      <[sl_array s := take (sl_off s) arr ++ elems ++ drop (sl_off s + sl_len s) arr]> h
  | None => h
  end.

Section role_set.
Context {S : SignatureEnv} {order : MapRange}
  {sortPackages : SortInterface Package Packages_Less}
  {sortRoles : SortInterface Role Roles_Less}.

(** The loop of [GetRoleManifestDevPackageVersion] over the sorted roles:
    the bytes written to the hasher, or the error of a role. *)
Definition roleSetBytes (hasher : string) (roles : list Role) : option (string + error) :=
  foldM (λ acc role,
           match acc with
           | inr err => Some (inr err)
           | inl hasher =>
               '(version, err) ← GetRoleDevVersion role;
               match err with
               | Some err => Some (inr err)
               | None => Some (inl (hasher +:+ version))
               end
           end) (inl hasher) roles.

(** [GetRoleManifestDevPackageVersion]: the store as the call leaves it,
    and the result ([None] is a panic). *)
Definition GetRoleManifestDevPackageVersion (m : RoleManifest) (h : store) (roles : slice)
    (extra : string) : store * option (string * option error) :=
  match slice_elems h roles with
  | None => (h, None)
  | Some elems =>
      let '(h, roles) := append_to_empty h elems in
      let sorted := sort_Sort (from_option id [] (slice_elems h roles)) in
      let h := slice_store h roles sorted in
      let hasher := "" in
      let hasher := hasher +:+ extra in
      (h,
       elems ← slice_elems h roles;
       text ← roleSetBytes hasher elems;
       match text with
       | inr err => Some ("", Some err)
       | inl hasher => Some (sha1_hex hasher, None)
       end)
  end.
End role_set.

(** ** Notions used to state the properties *)

(** The number of mechanisms a health check sets, among URL, command and
    TCP port. *)
Definition mechanismsSet (hc : HealthCheck) : nat :=
  (if decide (hc_URL hc = "") then 0 else 1)
  + (if decide (hc_Command hc = []) then 0 else 1)
  + (if decide (hc_Port hc = 0%Z) then 0 else 1).



Section usage_notions.
Context {M : ModelPkg}.

(** The variables a template refers to; none when it is malformed. *)
Definition templateVars (template : string) : list string :=
  match parseTemplate template with
  | inl vars => vars
  | inr _ => []
  end.

(** The variables of the template a role has for a property of one of
    its jobs. *)
Definition propertyVars (role : Role) (property : JobProperty) : list string :=
  match r_Configuration role with
  | Some conf =>
      match lookup_nil (conf_Templates conf) ("properties." +:+ prop_Name property) with
      | Some template => templateVars template
      | None => []
      end
  | None => []
  end.

(** The variable references met when the templates of the roles, then the
    global templates, are scanned. *)
Definition roleVars (m : RoleManifest) : list string :=
  m_Roles m ≫= λ role, r_Jobs role ≫= λ job, job_Properties job ≫= propertyVars role.

Definition globalVars {order : MapRange} (m : RoleManifest) : list string :=
  match m_Configuration m with
  | Some conf => map_range_nil (conf_Templates conf) ≫= λ '(_, template), templateVars template
  | None => []
  end.

(** [X] is referenced by a per-property template of a role: a template
    the role has under the key [properties.<name>] of a property of one
    of its jobs, which parses, and mentions [X]. *)
Definition referencedByRole (m : RoleManifest) (X : string) : Prop :=
  ∃ role job property conf template vars,
    role ∈ m_Roles m ∧ job ∈ r_Jobs role ∧ property ∈ job_Properties job ∧
    r_Configuration role = Some conf ∧
    lookup_nil (conf_Templates conf) ("properties." +:+ prop_Name property) = Some template ∧
    parseTemplate template = inl vars ∧ X ∈ vars.

(** [X] is referenced by a global template which parses. *)
Definition referencedByGlobal (m : RoleManifest) (X : string) : Prop :=
  ∃ conf key template vars,
    m_Configuration m = Some conf ∧
    lookup_nil (conf_Templates conf) key = Some template ∧
    parseTemplate template = inl vars ∧ X ∈ vars.

Definition referenced (m : RoleManifest) (X : string) : Prop :=
  referencedByRole m X ∨ referencedByGlobal m X.

(** The map [declaredConfigs] of [validateTemplateUsage] before the
    scan. *)
Definition initialDeclared (m : RoleManifest) : CVMap :=
  <["DNS_RECORD_NAME" := Some (mkConfigurationVariable "DNS_RECORD_NAME" None "" None false)]>
    (<["IP_ADDRESS" := Some (mkConfigurationVariable "IP_ADDRESS" None "" None false)]>
       (Some <$> MakeMapOfVariables m)).
End usage_notions.

(** A manifest as the loader hands it to the manifest-wide passes: the
    global configuration and the configuration of every role are there. *)
Definition resolved (m : RoleManifest) : Prop :=
  is_Some (m_Configuration m) ∧ Forall (λ role, is_Some (r_Configuration role)) (m_Roles m).

(** A finding that reports [X] as undeclared. *)
Definition undeclaredFinding (X : string) (e : Error) : Prop :=
  e = undeclaredInRole X ∨ e = undeclaredInGlobal X.

#[global] Instance undeclaredFinding_dec X e : Decision (undeclaredFinding X e).
Proof. unfold undeclaredFinding. apply _. Defined.

(** Removing from the unused set every variable of a list. *)
Definition deleteAll (vars : list string) (u : CVMap) : CVMap :=
  foldl (λ u x, delete x u) u vars.

(** A loop of [validateVariableUsage] agrees with the removal of the
    variables it scans: it goes on with the set that is left, or it has
    returned no finding and nothing is left. *)
Definition agrees (pure : CVMap) (c : ctl ErrorList CVMap) : Prop :=
  match c with
  | Next u => u = pure
  | Return r => r = [] ∧ pure = ∅
  | Panic => False
  end.

(** The names reported by the last loop of [validateVariableUsage]. *)
Definition unusedNames (l : list (string * option ConfigurationVariable)) : list string :=
  omap (λ '(k, v), match v with
                   | Some cv => if cv_Private cv then None else Some k
                   | None => None
                   end) l.

(** The index by name of a manifest is populated: every role is found
    under its name, and what is found under a name is a role of the
    manifest with that name. *)
Definition indexed (m : RoleManifest) : Prop :=
  (∀ role, role ∈ m_Roles m → is_Some (m_rolesByName m !! r_Name role)) ∧
  (∀ name role, m_rolesByName m !! name = Some role → role ∈ m_Roles m ∧ r_Name role = name).

(** A message mentions a name: the name occurs in it. *)
Definition mentions (msg name : string) : Prop :=
  ∃ before after, msg = before +:+ name +:+ after.

(** The claim on the order of the template lines, as the specification
    words it: the mapping is sorted by key, and the ["key: value"] lines
    follow in that order. *)
Definition keySortedLines {order : MapRange} (templates : option (gmap string string)) : list string :=
  (λ '(k, v), k +:+ ": " +:+ v)
    <$> merge_sort (λ kv1 kv2, String.le kv1.1 kv2.1) (map_range_nil templates).

(** The number of templates of a role. *)
Definition templateCount (r : Role) : nat :=
  match r_Configuration r with
  | Some conf => from_option size 0 (conf_Templates conf)
  | None => 0
  end.

(** A role has a configuration with a template mapping (be it empty). *)
Definition hasTemplates (r : Role) : Prop :=
  ∃ conf templates, r_Configuration r = Some conf ∧ conf_Templates conf = Some templates.

(** No key of the mapping is a proper prefix of another key. *)
Definition prefixFree (templates : gmap string string) : Prop :=
  ∀ k1 k2, is_Some (templates !! k1) → is_Some (templates !! k2) → k1 ≠ k2 →
           String.prefix k1 k2 = false.

(** ** Notions used to state the properties of the signatures *)

(** The components of a signature put together as [GetRoleDevVersion] does:
    each one after a line feed. *)
Definition joinLines (parts : list string) : string :=
  foldl (λ acc s, acc +:+ nl +:+ s) "" parts.

Section sig_notions.
Context {S : SignatureEnv} {order : MapRange}
  {sortPackages : SortInterface Package Packages_Less}.

(** The template signature of a role whose template mapping is [templates]. *)
Definition templateSignature (templates : option (gmap string string)) : string :=
  sha1_hex (foldl String.app "" (templateLines templates)).

(** The last component of the role signature as the code has it: present
    when the role has a configuration with a template mapping, be it
    empty. *)
Definition templatePart (r : Role) : list string :=
  match r_Configuration r with
  | Some conf =>
      match conf_Templates conf with
      | Some templates => [templateSignature (Some templates)]
      | None => []
      end
  | None => []
  end.

(** The last component as the specification words it: present only when
    the role has at least one template. *)
Definition specTemplatePart (r : Role) : list string :=
  match r_Configuration r with
  | Some conf => if decide (0 < templateCount r) then [templateSignature (conf_Templates conf)] else []
  | None => []
  end.

(** The components of the role signature, in order, given the script
    signature. *)
Definition signatureParts (r : Role) (scriptSig : string) (last : list string) : list string :=
  (job_SHA1 <$> r_Jobs r)
  ++ (pkg_SHA1 <$> sort_Sort (r_Jobs r ≫= job_Packages))
  ++ [scriptSig] ++ last.

(** The string hashed for a role according to the specification. *)
Definition specRoleSignatureText (r : Role) : option (string + error) :=
  '(sig, err) ← GetScriptSignatures r;
  match err with
  | Some err => Some (inr err)
  | None => Some (inl (joinLines (signatureParts r sig (specTemplatePart r))))
  end.
End sig_notions.

(** ** An instance of the parameters, for the concrete examples *)

Module Sample.
(** Negative amounts are reported; ports and protocols are not checked;
    a list of findings is rendered as its field paths, one per line. *)
Definition validationPkg : ValidationPkg := {|
  ValidateNonnegativeField v field :=
    if decide (v < 0)%Z then [validation.Invalid field (VInt v) "must be non-negative"] else [];
  ValidatePortRange _ _ := [];
  ValidateProtocol _ _ := [];
  ErrorList_Errors l := String.concat nl (e_Field <$> l)
|}.

(** A template refers to each of its words; the template ["(("] is
    malformed. The declared variables are those of the global
    configuration. *)
Definition modelPkg : ModelPkg := {|
  parseTemplate t :=
    if decide (t = "((") then inr (Err "unclosed tag") else inl (String.words t);
  MakeMapOfVariables m :=
    match m_Configuration m with
    | Some conf => list_to_map ((λ cv, (cv_Name cv, cv)) <$> conf_Variables conf)
    | None => ∅
    end
|}.

(** Maps are visited in the order of [map_to_list]. *)
Definition mapRange : MapRange :=
  {| map_range V m := map_to_list m; map_range_perm V m := reflexivity _ |}.

(** Every file holds the document [doc]; formatting leaves a string
    without verbs as it is. *)
Definition loaderEnv (doc : Roles * option Configuration) : LoaderEnv := {|
  ioutil_ReadFile _ := inl "";
  yaml_Unmarshal _ := inl doc;
  fmt_Sprintf0 s := s
|}.

(** The digest is kept symbolic ([sha1(bytes)]); the only file is
    [/m/scripts/run.sh]; paths are joined with a slash and the manifest
    lies in [/m]. *)
Definition signatureEnv : SignatureEnv := {|
  sha1_hex s := "sha1(" +:+ s +:+ ")";
  readFile f :=
    if decide (f = "/m/scripts/run.sh") then inl "#!/bin/sh" else inr (Err "no such file");
  filepath_IsAbs p := String.prefix "/" p;
  filepath_Dir _ := "/m";
  filepath_Join d p := d +:+ "/" +:+ p
|}.

(** Sorting by merging, for a [Less] that is asymmetric. *)
Definition notLess {A : Type} (Less : A → A → bool) (x y : A) : Prop := Less y x = false.

#[local] Instance notLess_dec {A : Type} (Less : A → A → bool) x y :
  Decision (notLess Less x y).
Proof. unfold notLess. apply _. Defined.

Program Definition sortInterface {A : Type} (Less : A → A → bool)
    (Hasym : ∀ x y, Less x y = true → Less y x = false) : SortInterface A Less :=
  {| sort_Sort := merge_sort (notLess Less) |}.
Next Obligation. intros. apply merge_sort_Permutation. Qed.
Next Obligation.
  intros A Less Hasym l.
  assert (Total (notLess Less)).
  { intros x y. unfold notLess. destruct (Less y x) eqn:E; [right; by apply Hasym|by left]. }
  by apply (Sorted_merge_sort (notLess Less)).
Qed.

Lemma ltb_asym (s1 s2 : string) : String.ltb s1 s2 = true → String.ltb s2 s1 = false.
Proof.
  unfold String.ltb. rewrite (String.compare_antisym s1 s2).
  by destruct (String.compare s2 s1).
Qed.

Definition sortPackages : SortInterface Package Packages_Less :=
  sortInterface Packages_Less (λ x y, ltb_asym (pkg_Name x) (pkg_Name y)).

Definition sortRoles : SortInterface Role Roles_Less :=
  sortInterface Roles_Less (λ x y, ltb_asym (r_Name x) (r_Name y)).
End Sample.

(** ** Inputs of the concrete examples *)

Module Inputs.
(** A health check by URL only. *)
Definition urlCheck : HealthCheck := mkHealthCheck "http://localhost/ping" None [] 0.

(** A run section with a health check and run-environment names. *)
Definition runWith (hc : option HealthCheck) (env : list string) : RoleRun :=
  mkRoleRun None [] [] [] 128 1 [] "" hc env.

(** A role without jobs, scripts or configuration. *)
Definition roleOf (name : string) (type : RoleType) (run : option RoleRun) : Role :=
  mkRole name [] [] [] [] type [] None run [] None.

Definition variable (name : string) (private : bool) : ConfigurationVariable :=
  mkConfigurationVariable name None "" None private.

(** The map of the declarations when only [A] is declared. *)
Definition declared : CVMap := {[ "A" := Some (variable "A" false) ]}.

Definition manifestPath : string := "/m/role-manifest.yml".

Definition emptyManifest : RoleManifest := mkRoleManifest [] None manifestPath ∅.

(** A release with one job, which has the properties [a] and [b] and two
    packages. *)
Definition nginxJob : Job :=
  mkJob "nginx" "1f2e" [mkJobProperty "a"; mkJobProperty "b"]
    [mkPackage "pcre" "77aa"; mkPackage "nginx" "90bc"].

Definition release : Release :=
  mkRelease "web" (λ name, if decide (name = "nginx") then inl nginxJob
                           else inr (Err "no such job")).

(** A document with one role, [api], which gives a template to the
    property [a], and a global configuration with a template and four
    declarations: the templates use [A], [B] and the undeclared [X], and
    leave the declared [D] and the private [C] unused. *)
Definition apiRole : Role :=
  mkRole "api" [] ["scripts/run.sh"] [] ["/opt/post.sh"] "" [mkRoleJob "nginx" "web"]
    (Some (mkConfiguration (Some {[ "properties.a" := "A X X" ]}) []))
    (Some (runWith None [])) [] None.

Definition globalConfiguration : Configuration :=
  mkConfiguration (Some {[ "properties.b" := "B X" ]})
    [variable "A" false; variable "B" false; variable "C" true; variable "D" false].

Definition document : Roles * option Configuration := ([apiRole], Some globalConfiguration).

(** The role and the manifest as the loader resolves them. *)
Definition loadedRole : Role :=
  mkRole "api" [nginxJob] ["scripts/run.sh"] [] ["/opt/post.sh"] RoleTypeBosh
    [mkRoleJob "nginx" "web"]
    (Some (mkConfiguration
             (Some {[ "properties.a" := "A X X"; "properties.b" := "B X" ]}) []))
    (Some (runWith None [])) []
    (Some (mkManifestRef manifestPath (Some globalConfiguration))).

Definition loadedManifest : RoleManifest :=
  mkRoleManifest [loadedRole] (Some globalConfiguration) manifestPath {[ "api" := loadedRole ]}.

(** A role whose type is given as [bosh], without run section; the same
    role without type. *)
Definition explicitBosh : Role := roleOf "api" RoleTypeBosh None.
Definition implicitBosh : Role := roleOf "api" "" None.

(** A docker role whose run-environment names [A] and [X]. *)
Definition dockerRole : Role := roleOf "db" RoleTypeDocker (Some (runWith None ["A"; "X"])).

(** A role as the loader leaves it when neither the role nor the manifest
    has a template: with an empty template mapping. *)
Definition noTemplates : Role :=
  mkRole "api" [nginxJob] [] [] [] RoleTypeBosh [] (Some (mkConfiguration (Some ∅) []))
    None [] (Some (mkManifestRef manifestPath None)).

(** Two templates of which one key is a prefix of the other. *)
Definition prefixTemplates : gmap string string :=
  {[ "properties.a" := "1"; "properties.a.b" := "2" ]}.

Definition prefixRole : Role :=
  mkRole "api" [] [] [] [] RoleTypeBosh []
    (Some (mkConfiguration (Some prefixTemplates) [])) None [] None.

(** A store with one array of two roles, and the slice that shows it. *)
Definition callerStore : store := {[ 1%positive := [roleOf "web" "" None; roleOf "api" "" None] ]}.
Definition callerSlice : slice := mkSlice 1 0 2.
End Inputs.

(** ** Further functions of the package and notions for their properties *)

(** [Less] of [ConfigurationVariableSlice], on the elements at the two
    indices: [strings.Compare] of the names is negative. *)
Definition ConfigurationVariableSlice_Less (a b : ConfigurationVariable) : bool :=
  String.ltb (cv_Name a) (cv_Name b).

(** The finding of [validateVariableSorting] for a declaration named
    [current] that follows one named [previous]. *)
Definition outOfOrder (previous current : string) : Error :=
  validation.Invalid "configuration.variables" (VStr previous)
    ("Does not sort before '" +:+ current +:+ "'").

(** The findings for the declarations that follow one named
    [previousName]. *)
Fixpoint sortingFindings (previousName : string) (variables : list ConfigurationVariable)
    : ErrorList :=
  match variables with
  | [] => []
  | cv :: variables =>
      (if String.ltb (cv_Name cv) previousName
       then [outOfOrder previousName (cv_Name cv)] else [])
      ++ sortingFindings (cv_Name cv) variables
  end.

(** The flight stages [normalizeFlightStage] lets pass. *)
Definition knownStages : list FlightStage :=
  [""; FlightStagePreFlight; FlightStageFlight; FlightStagePostFlight; FlightStageManual].

(** A flight stage with the default in place of the empty one. *)
Definition normalizedStage (fs : FlightStage) : FlightStage :=
  if decide (fs = "") then FlightStageFlight else fs.

(** A role with the flight stage of its run section, if it has one,
    normalized. *)
Definition normalizedRole (role : Role) : Role :=
  match r_Run role with
  | Some run => set_Run (Some (set_FlightStage (normalizedStage (run_FlightStage run)) run)) role
  | None => role
  end.

(** The loop of [HasTag]. *)
Fixpoint hasTagLoop (tags : list string) (tag : string) : bool :=
  match tags with
  | [] => false
  | t :: tags => if decide (t = tag) then true else hasTagLoop tags tag
  end.

(** [HasTag]: true if the role has a specific tag. *)
Definition HasTag (r : Role) (tag : string) : bool := hasTagLoop (r_Tags r) tag.

(** The loop of [IsDevRole], whose [switch] has the one case
    ["dev-only"]. *)
Fixpoint isDevRoleLoop (tags : list string) : bool :=
  match tags with
  | [] => false
  | tag :: tags => if decide (tag = "dev-only") then true else isDevRoleLoop tags
  end.

(** [IsDevRole]: true for the roles tagged for development. *)
Definition IsDevRole (r : Role) : bool := isDevRoleLoop (r_Tags r).

(** The error of [LoadRoleManifest] for a release name met twice. *)
Definition loadedTwice (name : string) : error :=
  Err ("Error - release " +:+ name +:+ " has been loaded more than once").

(** What the type switch of the first loop of [LoadRoleManifest], with the
    role-run pass after it, leaves of a role: nothing of a docker role. *)
Definition keptRole (role : Role) : option Role :=
  if decide (r_Type role = "") then Some (normalizedRole (set_Type RoleTypeBosh role))
  else if decide (r_Type role = RoleTypeBosh ∨ r_Type role = RoleTypeBoshTask) then Some role
  else if decide (r_Type role = RoleTypeDocker) then None
  else Some (normalizedRole role).

(** The findings of [validateRoleRun] on a role. *)
Definition runFindings {V : ValidationPkg} (role : Role) (declared : CVMap) : ErrorList :=
  match validateRoleRun role (mkRoleManifest [] None "" ∅) declared with
  | Some (_, errs) => errs
  | None => []
  end.

(** The findings of one iteration of the first loop of
    [LoadRoleManifest]. *)
Definition typeFindings {V : ValidationPkg} (declared : CVMap) (role : Role) : ErrorList :=
  if decide (r_Type role = "") then runFindings (set_Type RoleTypeBosh role) declared
  else if decide (r_Type role = RoleTypeBosh ∨ r_Type role = RoleTypeBoshTask) then []
  else if decide (r_Type role = RoleTypeDocker) then runFindings role declared
  else badRoleType role :: runFindings role declared.

(** The job a reference of [JobNameList] resolves to, if it does. *)
Definition jobOf (mappedReleases : gmap string Release) (rj : roleJob) : option Job :=
  release ← mappedReleases !! rj_ReleaseName rj;
  match rel_LookupJob release (rj_Name rj) with
  | inl job => Some job
  | inr _ => None
  end.

(** The finding for a reference of [JobNameList] that does not resolve. *)
Definition jobFinding (mappedReleases : gmap string Release) (role : Role) (rj : roleJob)
    : option Error :=
  match mappedReleases !! rj_ReleaseName rj with
  | None => Some (releaseNotLoaded role rj)
  | Some release =>
      match rel_LookupJob release (rj_Name rj) with
      | inr err => Some (jobLookupFailed role rj err)
      | inl _ => None
      end
  end.

(** The templates a role gives itself: none without a configuration or
    without a template mapping. *)
Definition roleTemplates (r : Role) : gmap string string :=
  default ∅ (conf ← r_Configuration r; conf_Templates conf).

(** The templates of a role laid over the global ones. *)
Definition mergedTemplates (r : Role) (gconf : Configuration) : gmap string string :=
  roleTemplates r ∪ default ∅ (conf_Templates gconf).

(** A role as the second loop of [LoadRoleManifest] leaves it. *)
Definition resolvedRole (mappedReleases : gmap string Release) (path : string)
    (gconf : Configuration) (role : Role) : Role :=
  set_Configuration
    (Some (mkConfiguration (Some (mergedTemplates role gconf))
             (conf_Variables (default (mkConfiguration None []) (r_Configuration role)))))
    (set_Jobs (omap (jobOf mappedReleases) (r_JobNameList role))
       (set_rolesManifest (Some (mkManifestRef path (Some gconf))) role)).

(** A reference of [JobNameList] resolves to a job in a list of releases. *)
Definition resolvesIn (releases : list Release) (rj : roleJob) (job : Job) : Prop :=
  ∃ release, release ∈ releases ∧ rel_Name release = rj_ReleaseName rj ∧
             rel_LookupJob release (rj_Name rj) = inl job.

(** The finding of [validateNonTemplates] for a global template. *)
Definition constantTemplate (property template : string) : Error :=
  validation.Invalid "configuration.templates" (VStr template)
    ("Using '" +:+ property +:+ "' as a constant").

(** The scripts of a role, in the order [GetScriptPaths] visits them. *)
Definition roleScripts (r : Role) : list string :=
  r_EnvironScripts r ++ r_Scripts r ++ r_PostConfigScripts r.

(** The bytes written to the hasher for files that can all be read: each
    name followed by the content. *)
Definition namesAndContents (files contents : list string) : string :=
  foldl String.app "" (zip_with String.app files contents).

(** [Len] and [Swap] of [Roles]; [Swap] panics on an index out of
    range, and assigns index [i] before index [j]. *)
Definition Roles_Len (roles : Roles) : nat := length roles.

Definition Roles_Swap (roles : Roles) (i j : nat) : option Roles :=
  ri ← roles !! i;
  rj ← roles !! j;
  Some (<[j := ri]> (<[i := rj]> roles)).

(** [Len] and [Swap] of [ConfigurationVariableSlice]. *)
Definition ConfigurationVariableSlice_Len (confVars : list ConfigurationVariable) : nat :=
  length confVars.

Definition ConfigurationVariableSlice_Swap (confVars : list ConfigurationVariable) (i j : nat)
    : option (list ConfigurationVariable) :=
  ci ← confVars !! i;
  cj ← confVars !! j;
  Some (<[j := ci]> (<[i := cj]> confVars)).

(** ** The command router (package [app]) *)

Module app.
(** What the router reads of a [cli.Context]: the full name of the command
    and the values of the flags, by name and type. *)
Record Context := mkContext {
  Command_FullName : string;
  String : string → string;
  Int : string → Z;
  Bool : string → bool
}.

(** The methods of [Fissile] the router calls are declared in other files
    of the package: a call is kept as the method and its arguments. *)
Inductive Call :=
  | ListJobs (release : string)
  | ListPackages (release : string)
  | CreateBaseCompilationImage (baseImage repository : string)
  | ShowBaseImage (baseImage repository : string)
  | Compile (release repository target : string) (workers : Z)
  | ListFullConfiguration (release : string)
  | PrintTemplateReport (release : string)
  | GenerateConfigurationBase (release lightOpinions darkOpinions target prefix provider : string)
  | GenerateBaseDockerImage (target configgin baseImage : string) (noBuild : bool)
      (repository : string)
  | GenerateRoleImages (target repository : string) (noBuild : bool)
      (release rolesManifest compiledPackages defaultConsulAddress
       defaultConfigStorePrefix version : string)
  | ListRoleImages (repository release rolesManifest version : string)
      (dockerOnly withSizes : bool).

(** [CommandRouter]: the call made, if any (the [switch] has no
    [default]). *)
Definition CommandRouter (c : Context) : option Call :=
  if decide (Command_FullName c = "release jobs-report") then
    Some (ListJobs (String c "release"))
  else if decide (Command_FullName c = "release packages-report") then
    Some (ListPackages (String c "release"))
  else if decide (Command_FullName c = "compilation build-base") then
    Some (CreateBaseCompilationImage (String c "base-image") (String c "repository"))
  else if decide (Command_FullName c = "compilation show-base") then
    Some (ShowBaseImage (String c "base-image") (String c "repository"))
  else if decide (Command_FullName c = "compilation start") then
    Some (Compile (String c "release") (String c "repository") (String c "target")
            (Int c "workers"))
  else if decide (Command_FullName c = "configuration report") then
    Some (ListFullConfiguration (String c "release"))
  else if decide (Command_FullName c = "templates report") then
    Some (PrintTemplateReport (String c "release"))
  else if decide (Command_FullName c = "configuration generate") then
    Some (GenerateConfigurationBase (String c "release") (String c "light-opinions")
            (String c "dark-opinions") (String c "target") (String c "prefix")
            (String c "provider"))
  else if decide (Command_FullName c = "images create-base") then
    Some (GenerateBaseDockerImage (String c "target") (String c "configgin")
            (String c "base-image") (Bool c "no-build") (String c "repository"))
  else if decide (Command_FullName c = "images create-roles") then
    Some (GenerateRoleImages (String c "target") (String c "repository") (Bool c "no-build")
            (String c "release") (String c "roles-manifest") (String c "compiled-packages")
            (String c "default-consul-address") (String c "default-config-store-prefix")
            (String c "version"))
  else if decide (Command_FullName c = "images list-roles") then
    Some (ListRoleImages (String c "repository") (String c "release")
            (String c "roles-manifest") (String c "version") (Bool c "docker-only")
            (Bool c "with-sizes"))
  else None.

(** The commands the router knows. *)
Definition routedCommands : list string :=
  ["release jobs-report"; "release packages-report"; "compilation build-base";
   "compilation show-base"; "compilation start"; "configuration report";
   "templates report"; "configuration generate"; "images create-base";
   "images create-roles"; "images list-roles"].

(** The flags of a call, by command: the string flags, the integer flags
    and the boolean flags. *)
Definition flagsOf (command : string) : list string * list string * list string :=
  if decide (command ∈ ["release jobs-report"; "release packages-report";
                        "configuration report"; "templates report"])
  then (["release"], [], [])
  else if decide (command ∈ ["compilation build-base"; "compilation show-base"])
  then (["base-image"; "repository"], [], [])
  else if decide (command = "compilation start")
  then (["release"; "repository"; "target"], ["workers"], [])
  else if decide (command = "configuration generate")
  then (["release"; "light-opinions"; "dark-opinions"; "target"; "prefix"; "provider"], [], [])
  else if decide (command = "images create-base")
  then (["target"; "configgin"; "base-image"; "repository"], [], ["no-build"])
  else if decide (command = "images create-roles")
  then (["target"; "repository"; "release"; "roles-manifest"; "compiled-packages";
         "default-consul-address"; "default-config-store-prefix"; "version"], [], ["no-build"])
  else if decide (command = "images list-roles")
  then (["repository"; "release"; "roles-manifest"; "version"], [], ["docker-only"; "with-sizes"])
  else ([], [], []).

(** Two contexts agree on a command and on its flags. *)
Definition agree (c c' : Context) : Prop :=
  Command_FullName c = Command_FullName c' ∧
  let '(strings, ints, bools) := flagsOf (Command_FullName c) in
  Forall (λ f, String c f = String c' f) strings ∧
  Forall (λ f, Int c f = Int c' f) ints ∧
  Forall (λ f, Bool c f = Bool c' f) bools.
End app.

(** ** Inputs of the further examples *)

Module MoreInputs.
Import Inputs.

(** A document that loads: two roles of one name, the second one tagged
    for development; the templates use the two declared variables, which
    are declared in order. *)
Definition webRole (tags : list string) : Role :=
  mkRole "api" [] ["scripts/run.sh"; "/opt/start.sh"] [] [] "" [mkRoleJob "nginx" "web"]
    (Some (mkConfiguration (Some {[ "properties.a" := "A" ]}) []))
    (Some (runWith None [])) tags None.

Definition sortedConfiguration : Configuration :=
  mkConfiguration (Some {[ "properties.b" := "B" ]}) [variable "A" false; variable "B" false].

Definition goodDocument : Roles * option Configuration :=
  ([webRole []; webRole ["dev-only"]], Some sortedConfiguration).

(** Maps visited in the reverse of the order of [map_to_list]. *)
Definition reversedRange : MapRange :=
  {| map_range V m := reverse (map_to_list m);
     map_range_perm V m := reverse_Permutation (map_to_list m) |}.

(** The store of [callerStore] with the two roles the other way round. *)
Definition swappedStore : store :=
  {[ 1%positive := [roleOf "api" "" None; roleOf "web" "" None] ]}.
End MoreInputs.

(** * Properties *)

(** ** Health check (C9) *)

(** C9. For a role with a run section that carries a health check,
    [validateHealthCheck] reports nothing when exactly one of URL, command
    and port is set, and reports one invalid finding, listing the
    mechanisms that are set, when none or more than one is. *)
Theorem validateHealthCheck_exactly_one (role : Role) (run : RoleRun) (hc : HealthCheck) :
  r_Run role = Some run →
  run_HealthCheck run = Some hc →
  (mechanismsSet hc = 1 → validateHealthCheck role = Some []) ∧
  (mechanismsSet hc ≠ 1 →
   ∃ checks,
     length checks = mechanismsSet hc ∧
     validateHealthCheck role =
       Some [validation.Invalid ("roles[" +:+ r_Name role +:+ "].run.healthcheck")
               (VStrs checks) "Expected exactly one of url, command, or port"]).
Proof.
  intros Hrun Hhc. unfold validateHealthCheck, mechanismsSet.
  rewrite Hrun. simpl. rewrite Hhc.
  destruct (hc_Command hc) as [|c cs] eqn:Hcmd; simpl;
    repeat case_decide; simpl in *; try lia; try congruence;
    (split;
     [ intros; first [done | lia]
     | intros Hne; first [done | eexists; split; [|reflexivity]; simpl; lia] ]).
Qed.

(** ** Environment policy of the role-run pass (C8) *)

Lemma env_fold (name : string) (declared : CVMap) (env : list string) (acc : ErrorList) :
  foldl (λ acc envVar,
           match declared !! envVar with
           | Some _ => acc
           | None => acc ++ [envNotDeclared name envVar]
           end) acc env
  = acc ++ (envNotDeclared name <$> filter (λ n, declared !! n = None) env).
Proof.
  revert acc. induction env as [|n env IH]; intros acc; simpl.
  - by rewrite app_nil_r.
  - rewrite IH. rewrite filter_cons. destruct (declared !! n) eqn:E.
    + rewrite decide_False; [done|]. congruence.
    + rewrite decide_True by done. simpl. by rewrite <- app_assoc.
Qed.

Lemma normalizeFlightStage_cases (role : Role) (run : RoleRun) :
  r_Run role = Some run →
  ∃ fs errs,
    normalizeFlightStage role = Some (set_Run (Some (set_FlightStage fs run)) role, errs) ∧
    ∀ env,
      normalizeFlightStage (set_Run (Some (set_Environment env run)) role)
      = Some (set_Run (Some (set_FlightStage fs (set_Environment env run))) role, errs).
Proof.
  intros Hrun. destruct role; simpl in *; subst. destruct run as [? ? ? ? ? ? ? fs ? ?].
  unfold normalizeFlightStage; simpl.
  case_decide; [eexists FlightStageFlight, _; split; [|intros]; reflexivity|].
  repeat case_decide; eexists fs, _; (split; [|intros]; reflexivity).
Qed.

Lemma validateHealthCheck_ext (r1 r2 : Role) (run1 run2 : RoleRun) :
  r_Run r1 = Some run1 → r_Run r2 = Some run2 →
  r_Name r1 = r_Name r2 → run_HealthCheck run1 = run_HealthCheck run2 →
  validateHealthCheck r1 = validateHealthCheck r2.
Proof.
  unfold validateHealthCheck. intros -> -> -> Hhc. simpl. by rewrite Hhc.
Qed.

Lemma validateHealthCheck_is_Some (r : Role) (run : RoleRun) :
  r_Run r = Some run → is_Some (validateHealthCheck r).
Proof.
  unfold validateHealthCheck. intros ->. simpl.
  destruct (run_HealthCheck run); [case_decide|]; eauto.
Qed.

(** C8. The findings of [validateRoleRun] on a role with a run section are
    those of the same role with an empty run-environment list, followed by
    the findings raised on environment grounds: none when the list is
    empty; for a docker role, one per listed name without declaration, in
    order; for any other role with a non-empty list, the single forbidden
    finding, whether the names are declared or not. *)
Theorem validateRoleRun_environment_policy {V : ValidationPkg}
    (role : Role) (run : RoleRun) (m : RoleManifest) (declared : CVMap) :
  r_Run role = Some run →
  ∃ role' base envErrs,
    validateRoleRun role m declared = Some (role', base ++ envErrs) ∧
    validateRoleRun (clear_Environment role) m declared = Some (clear_Environment role', base) ∧
    (run_Environment run = [] → envErrs = []) ∧
    (run_Environment run ≠ [] → r_Type role = RoleTypeDocker →
     envErrs = envNotDeclared (r_Name role)
                 <$> filter (λ n, declared !! n = None) (run_Environment run)) ∧
    (run_Environment run ≠ [] → r_Type role ≠ RoleTypeDocker →
     envErrs = [envForbidden (r_Name role)]).
Proof.
  intros Hrun.
  destruct (normalizeFlightStage_cases role run Hrun) as (fs & e1 & Hn & Hn').
  specialize (Hn' []).
  set (role1 := set_Run (Some (set_FlightStage fs run)) role) in *.
  destruct (validateHealthCheck_is_Some role1 _ eq_refl) as [e2 He2].
  assert (He2' : validateHealthCheck
                   (set_Run (Some (set_FlightStage fs (set_Environment [] run))) role) = Some e2).
  { rewrite <- He2. by eapply validateHealthCheck_ext. }
  unfold validateRoleRun, clear_Environment. rewrite Hrun. simpl.
  rewrite Hn, Hn'. simpl. rewrite He2, He2'. simpl.
  case_decide as Hlen.
  - apply nil_length_inv in Hlen.
    eexists role1, _, []. rewrite app_nil_r. split; [reflexivity|].
    split; [reflexivity|]. done.
  - assert (run_Environment run ≠ []) by (intros E; by rewrite E in Hlen).
    case_decide as Hd.
    + rewrite env_fold. eexists role1, _, _. split; [reflexivity|].
      split; [reflexivity|]. done.
    + eexists role1, _, _. split; [reflexivity|].
      split; [reflexivity|]. done.
Qed.

(** ** Generic facts on loops, strings and counting *)

Lemma foldM_pure {A S : Type} (body : S → A → option S) (g : S → A → S) (l : list A) (s : S) :
  (∀ s a, a ∈ l → body s a = Some (g s a)) → foldM body s l = Some (foldl g s l).
Proof.
  revert s. induction l as [|a l IH]; intros s Hb; simpl; [done|].
  rewrite Hb by apply list_elem_of_here. simpl. apply IH.
  intros s' a' Ha'. apply Hb. by apply list_elem_of_further.
Qed.

Lemma foldl_ext_all {A S : Type} (f g : S → A → S) (l : list A) (s : S) :
  (∀ s a, f s a = g s a) → foldl f s l = foldl g s l.
Proof.
  intros Hfg. revert s. induction l as [|a l IH]; intros s; simpl; [done|].
  by rewrite Hfg, IH.
Qed.

Lemma foldl_bind {A B S : Type} (step : S → B → S) (f : A → list B) (l : list A) (s : S) :
  foldl (λ s a, foldl step s (f a)) s l = foldl step s (l ≫= f).
Proof.
  revert s. induction l as [|a l IH]; intros s; simpl; [done|].
  by rewrite IH, foldl_app.
Qed.

Lemma string_app_length (a b : string) :
  String.length (a +:+ b) = String.length a + String.length b.
Proof.
  induction a as [|c a IH]; [done|].
  change (S (String.length (a +:+ b)) = S (String.length a) + String.length b). by rewrite IH.
Qed.

Lemma string_app_inj_r (t s1 s2 : string) : s1 +:+ t = s2 +:+ t → s1 = s2.
Proof.
  revert s2. induction s1 as [|c s1 IH]; intros [|c2 s2] Heq.
  - done.
  - apply (f_equal String.length) in Heq.
    rewrite !string_app_length in Heq. simpl in Heq. lia.
  - apply (f_equal String.length) in Heq.
    rewrite !string_app_length in Heq. simpl in Heq. lia.
  - change (String c (s1 +:+ t) = String c2 (s2 +:+ t)) in Heq.
    injection Heq as -> Heq. f_equal. by apply IH.
Qed.

Lemma quoted_inj (pre post x y : string) : pre +:+ x +:+ post = pre +:+ y +:+ post → x = y.
Proof. intros Heq%(inj (String.app pre)). by apply string_app_inj_r in Heq. Qed.




(** ** Variables used without declaration (C4) *)

Section template_usage.
Context {M : ModelPkg} {order : MapRange}.

Lemma referencedByRole_roleVars m X : referencedByRole m X ↔ X ∈ roleVars m.
Proof.
  unfold referencedByRole, roleVars. split.
  - intros (role & job & property & conf & template & vars & Hr & Hj & Hp & Hc & Hl & Hparse & HX).
    apply list_elem_of_bind. exists role. split; [|done].
    apply list_elem_of_bind. exists job. split; [|done].
    apply list_elem_of_bind. exists property. split; [|done].
    unfold propertyVars, templateVars. by rewrite Hc, Hl, Hparse.
  - intros (role & (job & (property & HX & Hp)%list_elem_of_bind & Hj)%list_elem_of_bind & Hr)%list_elem_of_bind.
    unfold propertyVars, templateVars in HX.
    destruct (r_Configuration role) as [conf|] eqn:Hc; [|by apply elem_of_nil in HX].
    destruct (lookup_nil _ _) as [template|] eqn:Hl; [|by apply elem_of_nil in HX].
    destruct (parseTemplate template) as [vars|] eqn:Hparse; [|by apply elem_of_nil in HX].
    by exists role, job, property, conf, template, vars.
Qed.

Lemma referencedByGlobal_globalVars m X : referencedByGlobal m X ↔ X ∈ globalVars m.
Proof.
  unfold referencedByGlobal, globalVars. split.
  - intros (conf & key & template & vars & -> & Hl & Hparse & HX).
    apply list_elem_of_bind. exists (key, template). split.
    + unfold templateVars. by rewrite Hparse.
    + destruct (conf_Templates conf) as [t|]; simpl in *; [|done].
      rewrite map_range_perm. by apply elem_of_map_to_list.
  - destruct (m_Configuration m) as [conf|]; [|by intros ?%elem_of_nil].
    intros ([key template] & HX & Hin)%list_elem_of_bind.
    unfold templateVars in HX.
    destruct (parseTemplate template) as [vars|] eqn:Hparse; [|by apply elem_of_nil in HX].
    exists conf, key, template, vars. split; [done|]. split; [|done].
    destruct (conf_Templates conf) as [t|]; simpl in *; [|by apply elem_of_nil in Hin].
    rewrite map_range_perm in Hin. by apply elem_of_map_to_list in Hin.
Qed.

Lemma checkVariables_app report l1 l2 st :
  checkVariables report (l1 ++ l2) st = checkVariables report l2 (checkVariables report l1 st).
Proof. unfold checkVariables. by rewrite foldl_app. Qed.

Lemma checkVariables_spec report (L : list string) (D0 : CVMap) (E0 : ErrorList) :
  ∃ new D,
    checkVariables report L (D0, E0) = (D, E0 ++ (report <$> new)) ∧
    NoDup new ∧
    (∀ x, x ∈ new ↔ x ∈ L ∧ D0 !! x = None) ∧
    (∀ x, D !! x = None ↔ D0 !! x = None ∧ x ∉ L).
Proof.
  revert D0 E0. induction L as [|x L IH]; intros D0 E0.
  - exists [], D0. simpl. rewrite app_nil_r. split; [done|]. split; [constructor|].
    split; intros y; [rewrite !elem_of_nil; tauto|]. rewrite elem_of_nil. tauto.
  - unfold checkVariables. simpl. destruct (D0 !! x) as [v|] eqn:Hx.
    + destruct (IH D0 E0) as (new & D & Heq & Hnd & Hnew & HD).
      exists new, D. split; [exact Heq|]. split; [done|]. split; intros y.
      * rewrite Hnew, elem_of_cons. split; [tauto|]. intros [[->|?] ?]; [congruence|tauto].
      * rewrite HD, elem_of_cons. split; [|tauto]. intros [? ?]. split; [done|].
        intros [->|?]; [congruence|tauto].
    + destruct (IH (<[x := None]> D0) (E0 ++ [report x])) as (new & D & Heq & Hnd & Hnew & HD).
      exists (x :: new), D. split; [|split; [|split]].
      * unfold checkVariables in Heq. rewrite Heq. by rewrite <- app_assoc.
      * constructor; [|done]. rewrite Hnew. rewrite lookup_insert_eq. intros [_ ?]. done.
      * intros y. rewrite !elem_of_cons, Hnew. destruct (decide (y = x)) as [->|Hne].
        -- rewrite lookup_insert_eq. split; [intros _; by split; [left|]|intros _; by left].
        -- rewrite lookup_insert_ne by done. tauto.
      * intros y. rewrite HD, elem_of_cons. destruct (decide (y = x)) as [->|Hne].
        -- rewrite lookup_insert_eq. split; [intros [? _]; done|intros [_ Hn]; destruct Hn; by left].
        -- rewrite lookup_insert_ne by done. tauto.
Qed.

Lemma scanRoles_checkVariables report (m : RoleManifest) st :
  Forall (λ role, is_Some (r_Configuration role)) (m_Roles m) →
  foldM (λ st role,
     foldM (λ st job,
       foldM (λ st property,
         let propertyName := "properties." +:+ prop_Name property in
         conf ← r_Configuration role;
         match lookup_nil (conf_Templates conf) propertyName with
         | Some template =>
             match parseTemplate template with
             | inr _ => Some st
             | inl varsInTemplate => Some (checkVariables report varsInTemplate st)
             end
         | None => Some st
         end) st (job_Properties job)) st (r_Jobs role))
    st (m_Roles m)
  = Some (checkVariables report (roleVars m) st).
Proof.
  intros Hres. unfold roleVars, checkVariables.
  rewrite <- foldl_bind.
  apply foldM_pure. intros st1 role Hrole.
  rewrite Forall_forall in Hres. destruct (Hres _ Hrole) as [conf Hconf].
  rewrite <- foldl_bind.
  apply foldM_pure. intros st2 job _.
  rewrite <- foldl_bind.
  apply foldM_pure. intros st3 property _.
  unfold propertyVars, templateVars. rewrite Hconf. simpl.
  destruct (lookup_nil _ _); [|done]. by destruct (parseTemplate _).
Qed.

Lemma scanGlobals_checkVariables report (m : RoleManifest) conf st :
  m_Configuration m = Some conf →
  foldl (λ st '(_, template),
           match parseTemplate template with
           | inr _ => st
           | inl varsInTemplate => checkVariables report varsInTemplate st
           end) st (map_range_nil (conf_Templates conf))
  = checkVariables report (globalVars m) st.
Proof.
  intros Hconf. unfold globalVars, checkVariables. rewrite Hconf.
  rewrite <- foldl_bind. apply foldl_ext_all.
  intros st1 [k template]. unfold templateVars. by destruct (parseTemplate _).
Qed.
Lemma initialDeclared_None m X :
  initialDeclared m !! X = None ↔
  MakeMapOfVariables m !! X = None ∧ X ≠ "IP_ADDRESS" ∧ X ≠ "DNS_RECORD_NAME".
Proof.
  unfold initialDeclared.
  destruct (decide (X = "DNS_RECORD_NAME")) as [->|H1].
  { rewrite lookup_insert_eq. split; [done|tauto]. }
  rewrite lookup_insert_ne by done.
  destruct (decide (X = "IP_ADDRESS")) as [->|H2].
  { rewrite lookup_insert_eq. split; [done|tauto]. }
  rewrite lookup_insert_ne by done.
  rewrite lookup_fmap. destruct (MakeMapOfVariables m !! X); simpl; intuition congruence.
Qed.

Lemma validateTemplateUsage_char (m : RoleManifest) :
  resolved m →
  ∃ new1 new2,
    validateTemplateUsage m
    = Some ((undeclaredInRole <$> new1) ++ (undeclaredInGlobal <$> new2)) ∧
    NoDup (new1 ++ new2) ∧
    ∀ X, X ∈ new1 ++ new2 ↔
         referenced m X ∧ MakeMapOfVariables m !! X = None ∧
         X ≠ "IP_ADDRESS" ∧ X ≠ "DNS_RECORD_NAME".
Proof.
  intros [[conf Hconf] Hroles]. unfold validateTemplateUsage.
  fold (initialDeclared m).
  rewrite (scanRoles_checkVariables undeclaredInRole m _ Hroles). simpl.
  rewrite Hconf. simpl.
  rewrite (scanGlobals_checkVariables undeclaredInGlobal m conf _ Hconf).
  destruct (checkVariables_spec undeclaredInRole (roleVars m) (initialDeclared m) [])
    as (new1 & D1 & -> & Hnd1 & Hnew1 & HD1).
  destruct (checkVariables_spec undeclaredInGlobal (globalVars m) D1 ([] ++ (undeclaredInRole <$> new1)))
    as (new2 & D2 & -> & Hnd2 & Hnew2 & HD2).
  exists new1, new2. simpl. split; [done|]. split.
  - apply NoDup_app. split; [done|]. split; [|done].
    intros x Hx1 Hx2. apply Hnew1 in Hx1 as [Hx1 _]. apply Hnew2 in Hx2 as [_ Hx2].
    apply HD1 in Hx2 as [_ Hx2]. done.
  - intros X. rewrite elem_of_app, Hnew1, Hnew2, HD1. unfold referenced.
    rewrite referencedByRole_roleVars, referencedByGlobal_globalVars.
    rewrite initialDeclared_None.
    destruct (decide (X ∈ roleVars m)); tauto.
Qed.


End template_usage.

(** ** Declared variables no template uses (C5) *)

Lemma deleteAll_empty vars : deleteAll vars ∅ = ∅.
Proof. induction vars as [|x vars IH]; simpl; [done|]. unfold deleteAll in *. simpl. by rewrite delete_empty. Qed.

Lemma deleteAll_app l1 l2 u : deleteAll (l1 ++ l2) u = deleteAll l2 (deleteAll l1 u).
Proof. unfold deleteAll. by rewrite foldl_app. Qed.

Lemma deleteAll_lookup vars (u : CVMap) k :
  deleteAll vars u !! k = if decide (k ∈ vars) then None else u !! k.
Proof.
  revert u. induction vars as [|x vars IH]; intros u.
  - rewrite decide_False by apply not_elem_of_nil. done.
  - change (deleteAll (x :: vars) u) with (deleteAll vars (delete x u)). rewrite IH.
    destruct (decide (k ∈ vars)) as [Hin|Hin].
    + rewrite decide_True; [done|by right].
    + destruct (decide (k = x)) as [->|Hne].
      * rewrite decide_True by left. apply lookup_delete_eq.
      * rewrite decide_False by (by intros [?|?]%elem_of_cons). by apply lookup_delete_ne.
Qed.

Section variable_usage.
Context {M : ModelPkg} {order : MapRange}.

Lemma useVariables_agrees vars (u : CVMap) :
  agrees (deleteAll vars u) (useVariables [] vars u).
Proof.
  revert u. induction vars as [|x vars IH]; intros u; [done|].
  unfold useVariables. simpl.
  assert (Hdel : match u !! x with Some _ => delete x u | None => u end = delete x u).
  { destruct (u !! x) eqn:E; [done|]. symmetry. by apply delete_id. }
  rewrite Hdel. case_decide as Hsize.
  - apply map_size_empty_iff in Hsize. simpl. split; [done|].
    change (deleteAll (x :: vars) u) with (deleteAll vars (delete x u)).
    rewrite Hsize. apply deleteAll_empty.
  - apply IH.
Qed.

Lemma forEach_agrees {A : Type} (l : list A) (body : A → CVMap → ctl ErrorList CVMap)
    (g : A → list string) (u : CVMap) :
  (∀ a u, a ∈ l → agrees (deleteAll (g a) u) (body a u)) →
  agrees (deleteAll (l ≫= g) u) (forEach l body u).
Proof.
  revert u. induction l as [|a l IH]; intros u Hbody; [done|].
  rewrite bind_cons, deleteAll_app. simpl.
  pose proof (Hbody a u ltac:(left)) as Ha.
  destruct (body a u) as [u1|r|]; simpl in *.
  - subst u1. apply IH. intros. apply Hbody. by right.
  - destruct Ha as [-> ->]. split; [done|apply deleteAll_empty].
  - done.
Qed.

Lemma finalReport (l : list (string * option ConfigurationVariable)) (errs0 : ErrorList) :
  Forall (λ kv, is_Some kv.2) l →
  foldM (λ allErrs '(cv, cvar),
           cvar ← (cvar : option ConfigurationVariable);
           if cv_Private cvar then Some allErrs
           else Some (allErrs ++ [unusedFinding cv]))
    errs0 l
  = Some (errs0 ++ (unusedFinding <$> unusedNames l)).
Proof.
  intros Hl. revert errs0. induction Hl as [|[k v] l [cv Hv] Hl IH]; intros errs0; simpl.
  - by rewrite app_nil_r.
  - simpl in Hv. subst v. simpl. destruct (cv_Private cv); simpl; rewrite IH; [done|].
    by rewrite <- app_assoc.
Qed.

Lemma unusedNames_elem (l : list (string * option ConfigurationVariable)) V :
  V ∈ unusedNames l ↔ ∃ cv, (V, Some cv) ∈ l ∧ cv_Private cv = false.
Proof.
  unfold unusedNames. rewrite list_elem_of_omap. split.
  - intros ([k [cv|]] & Hin & Heq); [|done].
    destruct (cv_Private cv) eqn:Hp; [done|]. injection Heq as ->. eauto.
  - intros (cv & Hin & Hp). exists (V, Some cv). split; [done|]. by rewrite Hp.
Qed.

Lemma unusedNames_sublist (l : list (string * option ConfigurationVariable)) :
  sublist (unusedNames l) (l.*1).
Proof.
  induction l as [|[k [cv|]] l IH]; simpl; [done|..].
  - destruct (cv_Private cv); simpl; by constructor.
  - by constructor.
Qed.
Lemma declared_all_used (m : RoleManifest) (vars : list string) :
  deleteAll vars (Some <$> MakeMapOfVariables m) = ∅ →
  ∀ V, is_Some (MakeMapOfVariables m !! V) → V ∈ vars.
Proof.
  intros Hempty V [cv Hcv].
  pose proof (deleteAll_lookup vars (Some <$> MakeMapOfVariables m) V) as Hl.
  rewrite Hempty, lookup_empty in Hl.
  destruct (decide (V ∈ vars)); [done|].
  rewrite lookup_fmap, Hcv in Hl. done.
Qed.

Lemma validateVariableUsage_char (m : RoleManifest) :
  resolved m →
  ∃ names,
    validateVariableUsage m = Some (unusedFinding <$> names) ∧
    NoDup names ∧
    ∀ V, V ∈ names ↔
         ∃ cv, MakeMapOfVariables m !! V = Some cv ∧ cv_Private cv = false ∧
               ¬ referenced m V.
Proof.
  intros [[conf Hconf] Hroles]. unfold validateVariableUsage.
  set (u0 := Some <$> MakeMapOfVariables m).
  assert (Hempty_case : ∀ vars, deleteAll vars u0 = ∅ →
            (vars = roleVars m ∨ vars = roleVars m ++ globalVars m) →
            ∃ names : list string,
              Some ([] : ErrorList) = Some (unusedFinding <$> names) ∧ NoDup names ∧
              ∀ V, V ∈ names ↔
                   ∃ cv, MakeMapOfVariables m !! V = Some cv ∧ cv_Private cv = false ∧
                         ¬ referenced m V).
  { intros vars Hempty Hvars. exists []. split; [done|]. split; [constructor|].
    intros V. rewrite elem_of_nil. split; [done|].
    intros (cv & Hcv & _ & Hn). apply Hn. unfold referenced.
    rewrite referencedByRole_roleVars, referencedByGlobal_globalVars.
    assert (V ∈ vars) as HV by (eapply declared_all_used; eauto).
    destruct Hvars as [-> | ->]; [by left|]. by apply elem_of_app in HV. }
  case_decide as Hsize.
  { apply map_size_empty_iff in Hsize. apply (Hempty_case (roleVars m)); [|by left].
    fold u0 in Hsize. rewrite Hsize. apply deleteAll_empty. }
  assert (Hr : agrees (deleteAll (roleVars m) u0)
    (forEach (m_Roles m) (λ role,
      forEach (r_Jobs role) (λ job,
        forEach (job_Properties job) (λ property unusedConfigs,
          let propertyName := "properties." +:+ prop_Name property in
          match r_Configuration role with
          | None => Panic
          | Some conf =>
              match lookup_nil (conf_Templates conf) propertyName with
              | Some template =>
                  match parseTemplate template with
                  | inr _ => Next unusedConfigs
                  | inl varsInTemplate => useVariables [] varsInTemplate unusedConfigs
                  end
              | None => Next unusedConfigs
              end
          end))) u0)).
  { unfold roleVars. apply forEach_agrees. intros role u1 Hrole.
    rewrite Forall_forall in Hroles. destruct (Hroles _ Hrole) as [rconf Hrconf].
    apply forEach_agrees. intros job u2 _.
    apply forEach_agrees. intros property u3 _.
    unfold propertyVars, templateVars. rewrite Hrconf. simpl.
    destruct (lookup_nil _ _); [|done].
    destruct (parseTemplate _); [apply useVariables_agrees|done]. }
  destruct (forEach (m_Roles m) _ u0) as [u1|r|]; simpl in Hr; [|..|done].
  2:{ destruct Hr as [-> Hr]. apply (Hempty_case (roleVars m)); [done|by left]. }
  subst u1. rewrite Hconf.
  assert (Hg : agrees (deleteAll (roleVars m ++ globalVars m) u0)
    (forEach (map_range_nil (conf_Templates conf)) (λ '(_, template) unusedConfigs,
       match parseTemplate template with
       | inr _ => Next unusedConfigs
       | inl varsInTemplate => useVariables [] varsInTemplate unusedConfigs
       end) (deleteAll (roleVars m) u0))).
  { rewrite deleteAll_app. unfold globalVars. rewrite Hconf.
    apply forEach_agrees. intros [k template] u2 _. unfold templateVars.
    destruct (parseTemplate _); [apply useVariables_agrees|done]. }
  destruct (forEach (map_range_nil (conf_Templates conf)) _ _) as [u2|r|]; simpl in Hg; [|..|done].
  2:{ destruct Hg as [-> Hg]. apply (Hempty_case (roleVars m ++ globalVars m)); [done|by right]. }
  subst u2. set (u2 := deleteAll (roleVars m ++ globalVars m) u0).
  assert (Hlook : ∀ k v, (k, v) ∈ map_range u2 ↔
            (k ∉ roleVars m ++ globalVars m) ∧ Some <$> (MakeMapOfVariables m !! k) = Some v).
  { intros k v. rewrite map_range_perm, elem_of_map_to_list. unfold u2.
    rewrite deleteAll_lookup. unfold u0. rewrite lookup_fmap.
    case_decide; [split; [done|tauto]|tauto]. }
  rewrite finalReport.
  2:{ apply Forall_forall. intros [k v] [_ Hkv]%Hlook. simpl.
      destruct (MakeMapOfVariables m !! k); simpl in Hkv; [|done]. injection Hkv as <-. eauto. }
  exists (unusedNames (map_range u2)). split; [done|]. split.
  - eapply sublist_NoDup; [|apply unusedNames_sublist].
    rewrite map_range_perm. apply NoDup_fst_map_to_list.
  - intros V. rewrite unusedNames_elem.
    assert (Href : referenced m V ↔ V ∈ roleVars m ++ globalVars m).
    { unfold referenced.
      by rewrite referencedByRole_roleVars, referencedByGlobal_globalVars, elem_of_app. }
    split.
    + intros (cv & [Hin Hcv]%Hlook & Hp). exists cv.
      destruct (MakeMapOfVariables m !! V); simpl in Hcv; [|done].
      injection Hcv as ->. rewrite Href. done.
    + intros (cv & Hcv & Hp & Hn). exists cv. split; [|done].
      apply Hlook. rewrite <- Href. split; [done|]. by rewrite Hcv.
Qed.


End variable_usage.

(** ** The result of loading (C6) *)

Section loading_facts.
Context {V : ValidationPkg} {M : ModelPkg} {order : MapRange} {L : LoaderEnv}.

Lemma validateRoleRun_total (role : Role) (m : RoleManifest) (declared : CVMap) :
  ∃ role' errs, validateRoleRun role m declared = Some (role', errs).
Proof.
  unfold validateRoleRun. destruct (r_Run role) as [run|] eqn:Hrun; [|eauto].
  destruct (normalizeFlightStage_cases role run Hrun) as (fs & e1 & -> & _). simpl.
  destruct (validateHealthCheck_is_Some (set_Run (Some (set_FlightStage fs run)) role) _ eq_refl)
    as [e2 ->]. simpl.
  repeat case_decide; eauto.
Qed.

Lemma roleTypeLoop_total (n : nat) (declared : CVMap) (m : RoleManifest) (errs : ErrorList) :
  n ≤ length (m_Roles m) →
  ∃ m' errs',
    roleTypeLoop n declared (m, errs) = Some (m', errs ++ errs') ∧
    m_Configuration m' = m_Configuration m ∧
    m_manifestFilePath m' = m_manifestFilePath m.
Proof.
  revert m errs. induction n as [|i IH]; intros m errs Hn.
  - exists m, []. simpl. by rewrite app_nil_r.
  - simpl. destruct (lookup_lt_is_Some_2 (m_Roles m) i ltac:(lia)) as [role Hrole].
    rewrite Hrole. simpl.
    case_decide as Hempty; [|case_decide as Hbosh; [|case_decide as Hdocker]].
    + destruct (validateRoleRun_total (set_Type RoleTypeBosh role) m declared)
        as (role' & e & ->). simpl.
      destruct (IH (set_Roles (<[i := role']> (m_Roles m)) m) (errs ++ e))
        as (m' & e' & -> & Hc & Hp).
      { simpl. rewrite length_insert. lia. }
      exists m', (e ++ e'). by rewrite app_assoc.
    + destruct (IH m errs) as (m' & e' & -> & Hc & Hp); [lia|]. eauto.
    + set (m1 := set_Roles (take i (m_Roles m) ++ drop (S i) (m_Roles m)) m).
      destruct (validateRoleRun_total role m1 declared) as (role' & e & ->). simpl.
      destruct (IH m1 (errs ++ e)) as (m' & e' & -> & Hc & Hp).
      { simpl. rewrite length_app, length_take, length_drop. lia. }
      exists m', (e ++ e'). by rewrite app_assoc.
    + destruct (validateRoleRun_total role m declared) as (role' & e & ->). simpl.
      destruct (IH (set_Roles (<[i := role']> (m_Roles m)) m) ((errs ++ [badRoleType role]) ++ e))
        as (m' & e' & -> & Hc & Hp).
      { simpl. rewrite length_insert. lia. }
      exists m', ([badRoleType role] ++ e ++ e'). by rewrite !app_assoc.
Qed.

(** The [continue] of the type switch: an iteration on a role whose type
    is given as [bosh] or [bosh-task] changes nothing and reports nothing,
    whatever the run section of the role. *)
Lemma roleTypeLoop_explicit_bosh (i : nat) (declared : CVMap) (m : RoleManifest)
    (errs : ErrorList) (role : Role) :
  m_Roles m !! i = Some role →
  r_Type role = RoleTypeBosh ∨ r_Type role = RoleTypeBoshTask →
  roleTypeLoop (S i) declared (m, errs) = roleTypeLoop i declared (m, errs).
Proof.
  intros Hrole Htype. simpl. rewrite Hrole. simpl.
  rewrite decide_False by (by destruct Htype as [-> | ->]).
  by rewrite decide_True.
Qed.

Lemma resolveJobs_prefix mapped role errs :
  ∃ jobs errs', resolveJobs mapped role errs = (jobs, errs ++ errs').
Proof.
  unfold resolveJobs.
  assert (∀ l jobs0 errs0, ∃ jobs errs',
    foldl (λ '(jobs, allErrs) rj,
           match mapped !! rj_ReleaseName rj with
           | None => (jobs, allErrs ++ [releaseNotLoaded role rj])
           | Some release =>
               match rel_LookupJob release (rj_Name rj) with
               | inr err => (jobs, allErrs ++ [jobLookupFailed role rj err])
               | inl job => (jobs ++ [job], allErrs)
               end
           end) (jobs0, errs0) l = (jobs, errs0 ++ errs')) as Hgen.
  { induction l as [|rj l IH]; intros jobs0 errs0; simpl.
    - exists jobs0, []. by rewrite app_nil_r.
    - destruct (mapped !! rj_ReleaseName rj) as [release|].
      + destruct (rel_LookupJob release (rj_Name rj)) as [job|err].
        * apply IH.
        * destruct (IH jobs0 (errs0 ++ [jobLookupFailed role rj err])) as (jobs & e & ->).
          exists jobs, ([jobLookupFailed role rj err] ++ e). by rewrite app_assoc.
      + destruct (IH jobs0 (errs0 ++ [releaseNotLoaded role rj])) as (jobs & e & ->).
        exists jobs, ([releaseNotLoaded role rj] ++ e). by rewrite app_assoc. }
  apply Hgen.
Qed.

Lemma resolveRole_total mapped (m : RoleManifest) done idx errs role :
  is_Some (m_Configuration m) →
  ∃ role' errs',
    resolveRole mapped m (done, idx, errs) role
    = Some (done ++ [role'], <[r_Name role' := role']> idx, errs ++ errs') ∧
    hasTemplates role'.
Proof.
  intros [conf Hconf]. unfold resolveRole.
  destruct (resolveJobs_prefix mapped
              (set_rolesManifest (Some (mkManifestRef (m_manifestFilePath m) (m_Configuration m))) role)
              errs) as (jobs & e & ->).
  unfold calculateRoleConfigurationTemplates. simpl. rewrite Hconf. simpl.
  match goal with |- context [Some (done ++ [?r], _, _)] => exists r, e end.
  split; [reflexivity|]. unfold hasTemplates. simpl. eauto.
Qed.

Lemma resolveRoles_gen mapped (m : RoleManifest) (l : Roles) done idx errs :
  is_Some (m_Configuration m) →
  ∃ rs errs',
    foldM (resolveRole mapped m) (done, idx, errs) l
    = Some (done ++ rs, foldl (λ idx r, <[r_Name r := r]> idx) idx rs, errs ++ errs') ∧
    Forall hasTemplates rs.
Proof.
  intros Hconf. revert done idx errs. induction l as [|role l IH]; intros done idx errs.
  - exists [], []. simpl. by rewrite !app_nil_r.
  - cbn [foldM]. destruct (resolveRole_total mapped m done idx errs role Hconf)
      as (role' & e & -> & Hrc). cbn [mbind option_bind].
    destruct (IH (done ++ [role']) (<[r_Name role' := role']> idx) (errs ++ e))
      as (rs & e' & -> & Hrs).
    exists (role' :: rs), (e ++ e'). rewrite <- !app_assoc. simpl. split; [done|].
    by constructor.
Qed.

Lemma hasTemplates_resolved (m : RoleManifest) :
  is_Some (m_Configuration m) → Forall hasTemplates (m_Roles m) → resolved m.
Proof.
  intros Hconf Hroles. split; [done|]. eapply Forall_impl; [exact Hroles|].
  intros r (conf & t & -> & _). eauto.
Qed.

Lemma index_fold (rs : Roles) (idx0 : gmap string Role) :
  let idx := foldl (λ idx r, <[r_Name r := r]> idx) idx0 rs in
  (∀ role, role ∈ rs → is_Some (idx !! r_Name role)) ∧
  (∀ name role, idx !! name = Some role →
                (role ∈ rs ∧ r_Name role = name) ∨ idx0 !! name = Some role) ∧
  (∀ name, is_Some (idx0 !! name) → is_Some (idx !! name)).
Proof.
  revert idx0. induction rs as [|r rs IH]; intros idx0; simpl.
  - split; [by intros ? ?%elem_of_nil|]. split; [by right|done].
  - destruct (IH (<[r_Name r := r]> idx0)) as (Hi1 & Hi2 & Hi3). split; [|split].
    + intros role [->|Hin]%elem_of_cons; [|by apply Hi1].
      apply Hi3. rewrite lookup_insert_eq. eauto.
    + intros name role Hl. destruct (Hi2 _ _ Hl) as [[Hin Hn]|Hl'].
      * left. split; [by right|done].
      * destruct (decide (r_Name r = name)) as [<-|Hne].
        -- rewrite lookup_insert_eq in Hl'. injection Hl' as <-. left. split; [left|done].
        -- rewrite lookup_insert_ne in Hl' by done. by right.
    + intros name Hs. apply Hi3. destruct (decide (r_Name r = name)) as [<-|Hne].
      * rewrite lookup_insert_eq. eauto.
      * by rewrite lookup_insert_ne.
Qed.

Lemma resolveRoles_total mapped (m : RoleManifest) errs :
  is_Some (m_Configuration m) →
  ∃ rs idx errs',
    resolveRoles mapped m errs = Some (rs, idx, errs ++ errs') ∧
    Forall hasTemplates rs ∧
    indexed (set_rolesByName idx (set_Roles rs m)).
Proof.
  intros Hconf. unfold resolveRoles.
  destruct (resolveRoles_gen mapped m (m_Roles m) [] ∅ errs Hconf) as (rs & e & -> & Hrs).
  eexists rs, _, e. split; [done|]. split; [done|].
  destruct (index_fold rs ∅) as (Hi1 & Hi2 & _). split; simpl.
  - apply Hi1.
  - intros name role Hl. destruct (Hi2 _ _ Hl) as [?|Hl']; [done|].
    by rewrite lookup_empty in Hl'.
Qed.

Lemma validateNonTemplates_total (m : RoleManifest) :
  is_Some (m_Configuration m) → is_Some (validateNonTemplates m).
Proof. intros [conf Hconf]. unfold validateNonTemplates. rewrite Hconf. simpl. eauto. Qed.

(** C6. Once the file is read, the releases have distinct names and the
    document is decoded, [LoadRoleManifest] does not panic; every pass
    runs (the manifest-wide ones on a resolved manifest), and the findings
    of all of them are gathered in one list. When that list is not empty,
    no manifest is returned, together with one error made of the whole
    list; when it is empty, the manifest is returned, with its index by
    name populated. *)
Theorem LoadRoleManifest_all_or_nothing (path : string) (releases : list Release)
    (contents : string) (mapped : gmap string Release) (roles : Roles)
    (configuration : option Configuration) :
  ioutil_ReadFile path = inl contents →
  mapReleases releases = inl mapped →
  yaml_Unmarshal contents = inl (roles, configuration) →
  let m0 := initialManifest path roles configuration in
  ∃ m1 m conf runErrs jobErrs usageErrs templateErrs constErrs,
    roleTypeLoop (length roles) (Some <$> MakeMapOfVariables m0) (m0, []) = Some (m1, runErrs) ∧
    resolveRoles mapped m1 runErrs = Some (m_Roles m, m_rolesByName m, runErrs ++ jobErrs) ∧
    m_Configuration m = Some conf ∧
    validateVariableUsage m = Some usageErrs ∧
    validateTemplateUsage m = Some templateErrs ∧
    validateNonTemplates m = Some constErrs ∧
    resolved m ∧
    indexed m ∧
    let allErrs :=
      runErrs ++ jobErrs ++ validateVariableSorting (conf_Variables conf)
      ++ usageErrs ++ templateErrs ++ constErrs in
    (allErrs ≠ [] →
     LoadRoleManifest path releases
     = Some (None, Some (Err (fmt_Sprintf0 (ErrorList_Errors allErrs))))) ∧
    (allErrs = [] → LoadRoleManifest path releases = Some (Some m, None)).
Proof.
  intros Hread Hrel Hyaml m0.
  assert (Hc0 : is_Some (m_Configuration m0)) by (unfold m0, initialManifest; simpl; eauto).
  destruct (roleTypeLoop_total (length roles) (Some <$> MakeMapOfVariables m0) m0 [])
    as (m1 & runErrs & Hloop & Hc1 & Hp1); [done|].
  simpl in Hloop.
  assert (Hc1' : is_Some (m_Configuration m1)) by (by rewrite Hc1).
  destruct (resolveRoles_total mapped m1 runErrs Hc1') as (rs & idx & jobErrs & Hres & Hrs & Hidx).
  set (m := set_rolesByName idx (set_Roles rs m1)) in *.
  destruct Hc1' as [conf Hconf].
  assert (Hresolved : resolved m) by (apply hasTemplates_resolved; [simpl; eauto|done]).
  destruct (validateVariableUsage_char m Hresolved) as (names & Husage & _).
  destruct (validateTemplateUsage_char m Hresolved) as (new1 & new2 & Htmpl & _).
  destruct (validateNonTemplates_total m) as [constErrs Hconst]; [simpl; eauto|].
  exists m1, m, conf, runErrs, jobErrs. eexists _, _, constErrs.
  split; [done|]. split; [done|]. split; [done|].
  split; [exact Husage|]. split; [exact Htmpl|]. split; [done|]. split; [done|].
  split; [done|].
  unfold LoadRoleManifest. rewrite Hread, Hrel, Hyaml. fold m0.
  assert (Hlen : length (m_Roles m0) = length roles) by done.
  rewrite Hlen, Hloop. simpl. rewrite Hres. simpl. rewrite Hconf. simpl.
  fold m. rewrite Husage. simpl. rewrite Htmpl. simpl. rewrite Hconst. simpl.
  rewrite <- !app_assoc.
  split; intros Hall.
  - rewrite decide_True; [done|]. intros Hl. apply Hall. by apply nil_length_inv.
  - rewrite decide_False; [done|]. rewrite Hall. simpl. lia.
Qed.
(** A manifest that [LoadRoleManifest] returns has its index populated, and
    each of its roles has a configuration with a template mapping. *)
Lemma LoadRoleManifest_success (path : string) (releases : list Release) (m : RoleManifest) :
  LoadRoleManifest path releases = Some (Some m, None) →
  indexed m ∧ resolved m ∧ Forall hasTemplates (m_Roles m).
Proof.
  unfold LoadRoleManifest. intros Hload.
  destruct (ioutil_ReadFile path) as [contents|]; [|discriminate].
  destruct (mapReleases releases) as [mapped|]; [|discriminate].
  destruct (yaml_Unmarshal contents) as [[roles configuration]|]; [|discriminate].
  set (m0 := initialManifest path roles configuration) in *.
  assert (Hc0 : is_Some (m_Configuration m0)) by (unfold m0, initialManifest; simpl; eauto).
  destruct (roleTypeLoop_total (length (m_Roles m0)) (Some <$> MakeMapOfVariables m0) m0 [])
    as (m1 & runErrs & Hloop & Hc1 & _); [done|].
  rewrite Hloop in Hload. simpl in Hload.
  assert (Hc1' : is_Some (m_Configuration m1)) by (by rewrite Hc1).
  destruct (resolveRoles_total mapped m1 runErrs Hc1') as (rs & idx & jobErrs & Hres & Hrs & Hidx).
  rewrite Hres in Hload. simpl in Hload.
  destruct Hc1' as [conf Hconf]. rewrite Hconf in Hload. simpl in Hload.
  set (m' := set_rolesByName idx (set_Roles rs m1)) in *.
  destruct (validateVariableUsage m') as [e1|]; [|discriminate]. simpl in Hload.
  destruct (validateTemplateUsage m') as [e2|]; [|discriminate]. simpl in Hload.
  destruct (validateNonTemplates m') as [e3|]; [|discriminate]. simpl in Hload.
  case_decide; [discriminate|]. injection Hload as <-.
  split; [done|]. split; [|done].
  apply hasTemplates_resolved; [simpl; eauto|done].
Qed.
End loading_facts.

(** ** Selecting roles (C7) *)

Lemma string_app_assoc (a b c : string) : (a +:+ b) +:+ c = a +:+ b +:+ c.
Proof.
  induction a as [|x a IH]; [done|].
  change (String x ((a +:+ b) +:+ c) = String x (a +:+ b +:+ c)). by rewrite IH.
Qed.

Lemma string_app_nil_r (a : string) : a +:+ "" = a.
Proof.
  induction a as [|x a IH]; [done|]. change (String x (a +:+ "") = String x a). by rewrite IH.
Qed.

Lemma mentions_app_l (msg name pre : string) : mentions msg name → mentions (pre +:+ msg) name.
Proof.
  intros (a & b & ->). exists (pre +:+ a), b. by rewrite string_app_assoc.
Qed.

Lemma mentions_app_r (msg name post : string) : mentions msg name → mentions (msg +:+ post) name.
Proof.
  intros (a & b & ->). exists a, (b +:+ post). by rewrite !string_app_assoc.
Qed.

Lemma mentions_self (name : string) : mentions name name.
Proof. exists "", "". by rewrite string_app_nil_r. Qed.

Lemma concat_mentions (sep : string) (l : list string) (name : string) :
  name ∈ l → mentions (String.concat sep l) name.
Proof.
  induction l as [|x l IH]; [by intros ?%elem_of_nil|].
  intros Hin. destruct l as [|y l].
  - apply list_elem_of_singleton in Hin as ->. apply mentions_self.
  - change (mentions (x +:+ sep +:+ String.concat sep (y :: l)) name).
    apply elem_of_cons in Hin as [->|Hin].
    + apply mentions_app_r, mentions_self.
    + apply mentions_app_l, mentions_app_l, IH, Hin.
Qed.

Lemma selectLoop_spec (m : RoleManifest) (names : list string) :
  selectLoop m names
  = (omap (λ n, m_rolesByName m !! n) names,
     filter (λ n, m_rolesByName m !! n = None) names).
Proof.
  unfold selectLoop.
  assert (∀ res mis,
    foldl (λ '(results, missingRoles) roleName,
             match m_rolesByName m !! roleName with
             | Some role => (results ++ [role], missingRoles)
             | None => (results, missingRoles ++ [roleName])
             end) (res, mis) names
    = (res ++ omap (λ n, m_rolesByName m !! n) names,
       mis ++ filter (λ n, m_rolesByName m !! n = None) names)) as Hgen.
  { induction names as [|n names IH]; intros res mis; simpl.
    - by rewrite !app_nil_r.
    - rewrite filter_cons. destruct (m_rolesByName m !! n) as [role|] eqn:Hl.
      + rewrite IH, decide_False by done. by rewrite <- app_assoc.
      + rewrite IH, decide_True by done. by rewrite <- app_assoc. }
  apply Hgen.
Qed.

(** C7. On a manifest whose index by name is populated, [SelectRoles]
    with no name returns every role of the manifest; with names of which
    some are not names of roles, it returns no role and an error whose
    message lists the unknown names, and so mentions each of them; with
    names that are all known, it returns the roles of these names, in the
    order of the request. *)
Theorem SelectRoles_all_or_unknown (m : RoleManifest) (names : list string) :
  indexed m →
  let known := r_Name <$> m_Roles m in
  let unknown := filter (λ n, n ∉ known) names in
  (names = [] → SelectRoles m names = (m_Roles m, None)) ∧
  (names ≠ [] → unknown ≠ [] →
   ∃ msg, SelectRoles m names = ([], Some (Err msg)) ∧
          msg = "Some roles are unknown: " +:+ fmt_v_strings unknown ∧
          ∀ n, n ∈ names → n ∉ known → mentions msg n) ∧
  (names ≠ [] → unknown = [] →
   ∃ results, SelectRoles m names = (results, None) ∧
              r_Name <$> results = names ∧
              Forall (λ role, role ∈ m_Roles m) results).
Proof.
  intros [Hidx1 Hidx2] known unknown.
  assert (Hknown : ∀ n, m_rolesByName m !! n = None ↔ n ∉ known).
  { intros n. unfold known. rewrite list_elem_of_fmap. split.
    - intros Hnone (role & -> & Hin). destruct (Hidx1 _ Hin) as [? ?]. congruence.
    - intros Hn. destruct (m_rolesByName m !! n) as [role|] eqn:Hl; [|done].
      destruct (Hidx2 _ _ Hl) as [Hin <-]. destruct Hn. eauto. }
  assert (Hmissing : filter (λ n, m_rolesByName m !! n = None) names = unknown).
  { unfold unknown. apply list_filter_iff. intros n. apply Hknown. }
  unfold SelectRoles. rewrite selectLoop_spec, Hmissing. split; [|split].
  - intros ->. done.
  - intros Hne Hunk. rewrite decide_False by (destruct names; [done|simpl; lia]).
    rewrite decide_True by (destruct unknown; [done|simpl; lia]).
    eexists. split; [reflexivity|]. split; [reflexivity|].
    intros n Hn Hnk. apply mentions_app_l. unfold fmt_v_strings.
    apply mentions_app_l, mentions_app_r, concat_mentions.
    unfold unknown. by apply list_elem_of_filter.
  - intros Hne Hunk. rewrite decide_False by (destruct names; [done|simpl; lia]).
    rewrite Hunk. simpl. eexists. split; [reflexivity|].
    assert (Hall : Forall (λ n, n ∈ known) names).
    { apply Forall_forall. intros n Hn. destruct (decide (n ∈ known)) as [|Hnk]; [done|].
      assert (n ∈ unknown) as Hu by (unfold unknown; by apply list_elem_of_filter).
      rewrite Hunk in Hu. by apply elem_of_nil in Hu. }
    clear Hunk Hmissing unknown Hne. induction Hall as [|n names Hn Hall IH]; [done|].
    destruct (m_rolesByName m !! n) as [role|] eqn:Hl.
    + assert (omap (λ n, m_rolesByName m !! n) (n :: names)
              = role :: omap (λ n, m_rolesByName m !! n) names) as ->.
      { simpl. by rewrite Hl. }
      destruct IH as [IH1 IH2]. destruct (Hidx2 _ _ Hl) as [Hin <-].
      split; [rewrite fmap_cons; by rewrite IH1|by constructor].
    + apply Hknown in Hl. done.
Qed.

(** ** The template signature (C3) *)

Lemma map_range_nil_perm {order : MapRange} {V} (m : option (gmap string V)) :
  map_range_nil m ≡ₚ map_to_list (default ∅ m).
Proof.
  destruct m as [m|]; simpl; [apply map_range_perm|]. by rewrite map_to_list_empty.
Qed.

Lemma compare_app_not_prefix (k1 k2 s1 s2 : string) :
  String.prefix k1 k2 = false → String.prefix k2 k1 = false →
  String.compare (k1 +:+ s1) (k2 +:+ s2) = String.compare k1 k2.
Proof.
  revert k2. induction k1 as [|c1 k1 IH]; intros [|c2 k2] H12 H21; try done.
  change (String.compare (String c1 (k1 +:+ s1)) (String c2 (k2 +:+ s2))
          = String.compare (String c1 k1) (String c2 k2)).
  simpl in *. destruct (Ascii.compare c1 c2) eqn:Hc; [|done..].
  apply Ascii.compare_eq_iff in Hc as ->.
  destruct (Ascii.ascii_dec c2 c2); [|done]. by apply IH.
Qed.

Lemma le_app_not_prefix (k1 k2 s1 s2 : string) :
  String.prefix k1 k2 = false → String.prefix k2 k1 = false →
  String.le k1 k2 → String.le (k1 +:+ s1) (k2 +:+ s2).
Proof.
  intros H12 H21. unfold String.le, String.leb.
  by rewrite (compare_app_not_prefix k1 k2 s1 s2 H12 H21).
Qed.

Lemma StronglySorted_fmap_in {A B} (R : relation A) (R' : relation B) (f : A → B) (l : list A) :
  StronglySorted R l → NoDup l →
  (∀ x y, x ∈ l → y ∈ l → x ≠ y → R x y → R' (f x) (f y)) →
  StronglySorted R' (f <$> l).
Proof.
  induction 1 as [|x l Hl IH Hx]; intros Hnd Himp; [constructor|].
  apply NoDup_cons in Hnd as [Hxl Hnd]. rewrite fmap_cons. constructor.
  - apply IH; [done|]. intros y z Hy Hz. apply Himp; by right.
  - apply Forall_fmap, Forall_forall. intros y Hy. simpl. apply Himp.
    + by left.
    + by right.
    + intros ->. done.
    + rewrite Forall_forall in Hx. by apply Hx.
Qed.

Section template_signature.
Context {S : SignatureEnv} {order : MapRange}.

Lemma sort_Strings_sorted (l : list string) : Sorted String.le (sort_Strings l).
Proof. apply (Sorted_merge_sort String.le). Qed.

Lemma sort_Strings_perm (l : list string) : sort_Strings l ≡ₚ l.
Proof. apply merge_sort_Permutation. Qed.

Lemma sort_Strings_unique (l1 l2 : list string) : l1 ≡ₚ l2 → sort_Strings l1 = sort_Strings l2.
Proof.
  intros Hp. apply (Sorted_unique String.le); try apply sort_Strings_sorted.
  by rewrite !sort_Strings_perm.
Qed.

Lemma keySortedLines_prefixFree (templates : gmap string string) :
  prefixFree templates →
  templateLines (Some templates) = keySortedLines (Some templates).
Proof.
  intros Hpf. unfold templateLines, keySortedLines. simpl.
  set (byKey := λ kv1 kv2 : string * string, String.le kv1.1 kv2.1).
  set (line := λ '(k, v), k +:+ ": " +:+ v).
  assert (Hperm : merge_sort byKey (map_range templates) ≡ₚ map_to_list templates).
  { rewrite merge_sort_Permutation. apply map_range_perm. }
  apply (Sorted_unique String.le).
  - apply sort_Strings_sorted.
  - apply StronglySorted_Sorted.
    apply (StronglySorted_fmap_in byKey).
    + apply Sorted_StronglySorted.
      * intros x y z. unfold byKey. apply (transitivity (R := String.le)).
      * assert (Total byKey) by (intros x y; apply (total String.le)).
        apply (Sorted_merge_sort byKey).
    + rewrite Hperm. apply NoDup_map_to_list.
    + intros [k1 v1] [k2 v2] H1 H2 Hne Hle. unfold byKey in Hle. simpl in *.
      rewrite Hperm in H1, H2. apply elem_of_map_to_list in H1, H2.
      assert (k1 ≠ k2) as Hk by (intros ->; congruence).
      apply le_app_not_prefix; [| |done].
      * apply Hpf; eauto.
      * apply Hpf; eauto.
  - rewrite sort_Strings_perm. apply fmap_Permutation.
    by rewrite Hperm, map_range_perm.
Qed.

(** C3 (amended). The template signature of a role is the digest of the
    ["key: value"] lines of its template mapping, written in the
    lexicographic order of the lines themselves: the lines hashed are
    sorted, they are the lines of the mapping, and they do not depend on
    the order in which the mapping is visited. This order is the order of
    the keys when no key is a proper prefix of another key. *)
Theorem GetTemplateSignatures_line_order (r : Role) (conf : Configuration) :
  r_Configuration r = Some conf →
  let lines := templateLines (conf_Templates conf) in
  GetTemplateSignatures r = Some (sha1_hex (foldl String.app "" lines), None) ∧
  Sorted String.le lines ∧
  lines ≡ₚ ((λ '(k, v), k +:+ ": " +:+ v) <$> map_to_list (default ∅ (conf_Templates conf))) ∧
  (∀ order' : MapRange, templateLines (order := order') (conf_Templates conf) = lines) ∧
  (∀ templates, conf_Templates conf = Some templates → prefixFree templates →
                lines = keySortedLines (conf_Templates conf)).
Proof.
  intros Hconf lines. split; [|split; [|split; [|split]]].
  - unfold GetTemplateSignatures. by rewrite Hconf.
  - apply sort_Strings_sorted.
  - unfold lines, templateLines. rewrite sort_Strings_perm.
    apply fmap_Permutation. exact (map_range_nil_perm (conf_Templates conf)).
  - intros order'. unfold lines, templateLines. apply sort_Strings_unique.
    apply fmap_Permutation. by rewrite !map_range_nil_perm.
  - intros templates Ht Hpf. unfold lines. rewrite Ht.
    by apply keySortedLines_prefixFree.
Qed.
End template_signature.


(** ** The signature of a role (C2) *)

Section role_signature.
Context {S : SignatureEnv} {order : MapRange}
  {sortPackages : SortInterface Package Packages_Less}.

Lemma joinLines_app_from (acc : string) (l1 l2 : list string) :
  foldl (λ acc s, acc +:+ nl +:+ s) acc (l1 ++ l2)
  = foldl (λ acc s, acc +:+ nl +:+ s) (foldl (λ acc s, acc +:+ nl +:+ s) acc l1) l2.
Proof. apply foldl_app. Qed.

Lemma jobs_fold (jobs : list Job) (sig : string) (packages : list Package) :
  foldl (λ '(roleSignature, packages) job,
           (roleSignature +:+ nl +:+ job_SHA1 job, packages ++ job_Packages job))
    (sig, packages) jobs
  = (foldl (λ acc s, acc +:+ nl +:+ s) sig (job_SHA1 <$> jobs),
     packages ++ (jobs ≫= job_Packages)).
Proof.
  revert sig packages. induction jobs as [|job jobs IH]; intros sig packages; simpl.
  - by rewrite app_nil_r.
  - rewrite IH. by rewrite <- app_assoc.
Qed.

Lemma packages_fold (packages : list Package) (sig : string) :
  foldl (λ roleSignature pkg, roleSignature +:+ nl +:+ pkg_SHA1 pkg) sig packages
  = foldl (λ acc s, acc +:+ nl +:+ s) sig (pkg_SHA1 <$> packages).
Proof. revert sig. induction packages as [|p ps IH]; intros sig; simpl; [done|]. by rewrite IH. Qed.

Lemma roleSignatureText_parts (r : Role) :
  roleSignatureText r
  = '(sig, err) ← GetScriptSignatures r;
    match err with
    | Some err => Some (inr err)
    | None => Some (inl (joinLines (signatureParts r sig (templatePart r))))
    end.
Proof.
  unfold roleSignatureText. rewrite jobs_fold. simpl. rewrite packages_fold.
  destruct (GetScriptSignatures r) as [[sig [err|]]|]; simpl; [done| |done].
  unfold joinLines, signatureParts, templatePart.
  rewrite !joinLines_app_from. simpl.
  destruct (r_Configuration r) as [conf|] eqn:Hconf; [|done].
  destruct (conf_Templates conf) as [t|] eqn:Ht; [|done].
  unfold GetTemplateSignatures. rewrite Hconf. simpl. rewrite Ht. done.
Qed.

(** C2 (amended). The signature of a role is the digest of one string
    made, in this order, of the content hash of each job in the declared
    order of the jobs, the hash of every package of these jobs sorted by
    package name, the script signature, and the template signature; the
    last is left out exactly when the role has no configuration or its
    configuration has no template mapping (an empty mapping is signed).
    An error of the script signature is the result of the call. *)
Theorem GetRoleDevVersion_concatenation (r : Role) :
  match GetScriptSignatures r with
  | Some (scriptSig, None) =>
      GetRoleDevVersion r
      = Some (sha1_hex (joinLines (signatureParts r scriptSig (templatePart r))), None)
  | Some (_, Some err) => GetRoleDevVersion r = Some ("", Some err)
  | None => GetRoleDevVersion r = None
  end
  ∧ sort_Sort (r_Jobs r ≫= job_Packages) ≡ₚ r_Jobs r ≫= job_Packages
  ∧ Sorted (λ p q, Packages_Less q p = false) (sort_Sort (r_Jobs r ≫= job_Packages))
  ∧ (templatePart r = [] ↔
     r_Configuration r = None ∨
     ∃ conf, r_Configuration r = Some conf ∧ conf_Templates conf = None).
Proof.
  split; [|split; [apply sort_Sort_perm|split; [apply sort_Sort_sorted|]]].
  - unfold GetRoleDevVersion. rewrite roleSignatureText_parts.
    by destruct (GetScriptSignatures r) as [[sig [err|]]|].
  - unfold templatePart. destruct (r_Configuration r) as [conf|]; [|by split; [left|]].
    destruct (conf_Templates conf) as [t|] eqn:Ht.
    + split; [done|]. intros [?|(conf' & Hc & Ht')]; [done|]. congruence.
    + split; [|done]. intros _. right. eauto.
Qed.
End role_signature.

(** ** The signature of a set of roles (C10) *)

Section role_set_signature.
Context {S : SignatureEnv} {order : MapRange}
  {sortPackages : SortInterface Package Packages_Less}
  {sortRoles : SortInterface Role Roles_Less}.

Lemma slice_elems_full (h : store) (l : positive) (elems : list Role) :
  slice_elems (<[l := elems]> h) (mkSlice l 0 (length elems)) = Some elems.
Proof.
  unfold slice_elems. simpl. rewrite lookup_insert_eq. simpl.
  rewrite decide_True by lia. by rewrite drop_0, firstn_all.
Qed.

Lemma slice_store_full (h : store) (l : positive) (elems sorted : list Role) :
  slice_store (<[l := elems]> h) (mkSlice l 0 (length elems)) sorted = <[l := sorted]> h.
Proof.
  unfold slice_store. simpl. rewrite lookup_insert_eq.
  rewrite drop_all, app_nil_r. simpl. apply insert_insert_eq.
Qed.

Lemma call_store (m : RoleManifest) (h : store) (roles : slice) (extra : string)
    (elems : list Role) :
  slice_elems h roles = Some elems →
  (GetRoleManifestDevPackageVersion m h roles extra).1
  = <[fresh (dom h) := sort_Sort elems]> h.
Proof.
  intros Hs. unfold GetRoleManifestDevPackageVersion. rewrite Hs.
  unfold append_to_empty. rewrite slice_elems_full. simpl.
  by rewrite slice_store_full.
Qed.

(** C10. [GetRoleManifestDevPackageVersion] leaves the list of its caller
    as it is: after the call the slice passed shows the same roles in the
    same order, every array of the store is unchanged, and the only change
    to the store is a new array, which holds the sorted copy. *)
Theorem GetRoleManifestDevPackageVersion_keeps_caller_list (m : RoleManifest) (h : store)
    (roles : slice) (extra : string) (elems : list Role) :
  slice_elems h roles = Some elems →
  let h' := (GetRoleManifestDevPackageVersion m h roles extra).1 in
  slice_elems h' roles = Some elems ∧
  h ⊆ h' ∧
  ∃ l, h !! l = None ∧ h' = <[l := sort_Sort elems]> h.
Proof.
  intros Hs h'. unfold h'. rewrite (call_store m h roles extra elems Hs).
  assert (Hfresh : h !! fresh (dom h) = None).
  { apply not_elem_of_dom. apply is_fresh. }
  split; [|split].
  - unfold slice_elems in *. destruct (h !! sl_array roles) as [arr|] eqn:Harr; [|done].
    rewrite lookup_insert_ne; [by rewrite Harr|]. intros Heq. congruence.
  - by apply insert_subseteq.
  - eauto.
Qed.
End role_set_signature.

(** ** Concrete examples: witnesses and counterexamples *)

Section examples.
#[local] Existing Instances Sample.validationPkg Sample.modelPkg Sample.mapRange
  Sample.signatureEnv Sample.sortPackages Sample.sortRoles.

Import Inputs.

Lemma validateHealthCheck_exactly_one_witness :
  r_Run (roleOf "api" "" (Some (runWith (Some urlCheck) []))) = Some (runWith (Some urlCheck) []) ∧
  run_HealthCheck (runWith (Some urlCheck) []) = Some urlCheck ∧
  validateHealthCheck (roleOf "api" "" (Some (runWith (Some urlCheck) []))) = Some [].
Proof.
  split; [reflexivity|]. split; [reflexivity|].
  apply (proj1 (validateHealthCheck_exactly_one
                  (roleOf "api" "" (Some (runWith (Some urlCheck) [])))
                  (runWith (Some urlCheck) []) urlCheck eq_refl eq_refl)).
  reflexivity.
Defined.

Lemma validateRoleRun_environment_policy_witness :
  r_Run dockerRole = Some (runWith None ["A"; "X"]) ∧
  ∃ role' base,
    validateRoleRun dockerRole emptyManifest declared
    = Some (role', base ++ [envNotDeclared "db" "X"]).
Proof.
  split; [reflexivity|].
  destruct (validateRoleRun_environment_policy dockerRole (runWith None ["A"; "X"])
              emptyManifest declared eq_refl)
    as (role' & base & envErrs & Hrun & _ & _ & Hdocker & _).
  exists role', base. rewrite Hrun. rewrite (Hdocker ltac:(discriminate) eq_refl).
  reflexivity.
Defined.

Lemma loadedManifest_resolved : resolved loadedManifest.
Proof. split; [by eexists|]. repeat constructor. by eexists. Qed.



Lemma LoadRoleManifest_all_or_nothing_witness :
  @ioutil_ReadFile (Sample.loaderEnv document) manifestPath = inl "" ∧
  mapReleases [release] = inl {[ "web" := release ]} ∧
  @yaml_Unmarshal (Sample.loaderEnv document) "" = inl document ∧
  ((∃ allErrs, allErrs ≠ [] ∧
      LoadRoleManifest (L := Sample.loaderEnv document) manifestPath [release]
      = Some (None, Some (Err (@fmt_Sprintf0 (Sample.loaderEnv document)
                                 (ErrorList_Errors allErrs))))) ∨
   (∃ m, indexed m ∧
      LoadRoleManifest (L := Sample.loaderEnv document) manifestPath [release]
      = Some (Some m, None))).
Proof.
  split; [reflexivity|]. split; [reflexivity|]. split; [reflexivity|].
  destruct (LoadRoleManifest_all_or_nothing (L := Sample.loaderEnv document)
              manifestPath [release] "" {[ "web" := release ]} [apiRole]
              (Some globalConfiguration) eq_refl eq_refl eq_refl)
    as (m1 & m & conf & runErrs & jobErrs & usageErrs & templateErrs & constErrs
        & _ & _ & _ & _ & _ & _ & _ & Hidx & Hbad & Hgood).
  destruct (decide (runErrs ++ jobErrs ++ validateVariableSorting (conf_Variables conf)
                    ++ usageErrs ++ templateErrs ++ constErrs = [])) as [Hnil|Hne].
  - right. exists m. split; [exact Hidx|]. exact (Hgood Hnil).
  - left. eexists. split; [exact Hne|]. exact (Hbad Hne).
Defined.

Example LoadRoleManifest_document :
  LoadRoleManifest (L := Sample.loaderEnv document) manifestPath [release]
  = Some (None, Some (Err ("configuration.variables" +:+ nl +:+ "configuration.variables"))).
Proof. vm_compute. reflexivity. Qed.

Lemma loadedManifest_indexed : indexed loadedManifest.
Proof.
  split.
  - intros role ->%list_elem_of_singleton. by eexists.
  - intros name role Hl. change (({[ "api" := loadedRole ]} : gmap string Role) !! name = Some role) in Hl.
    apply lookup_singleton_Some in Hl as [<- <-]. split; [|done]. by left.
Qed.

Lemma SelectRoles_all_or_unknown_witness :
  indexed loadedManifest ∧
  SelectRoles loadedManifest [] = ([loadedRole], None) ∧
  SelectRoles loadedManifest ["api"; "db"; "ui"]
  = ([], Some (Err "Some roles are unknown: [db ui]")).
Proof.
  split; [exact loadedManifest_indexed|].
  destruct (SelectRoles_all_or_unknown loadedManifest [] loadedManifest_indexed) as [Hall _].
  destruct (SelectRoles_all_or_unknown loadedManifest ["api"; "db"; "ui"] loadedManifest_indexed)
    as (_ & Hunknown & _).
  split; [exact (Hall eq_refl)|].
  destruct Hunknown as (msg & Heq & Hmsg & _); [discriminate| |].
  - apply (bool_decide_unpack _). vm_compute. exact I.
  - rewrite Heq, Hmsg. reflexivity.
Defined.

Lemma GetTemplateSignatures_line_order_witness :
  r_Configuration prefixRole = Some (mkConfiguration (Some prefixTemplates) []) ∧
  GetTemplateSignatures prefixRole
  = Some ("sha1(properties.a.b: 2properties.a: 1)", None).
Proof.
  split; [reflexivity|].
  destruct (GetTemplateSignatures_line_order prefixRole
              (mkConfiguration (Some prefixTemplates) []) eq_refl) as (Heq & _).
  rewrite Heq. reflexivity.
Defined.

Lemma GetTemplateSignatures_key_order_counterexample :
  templateLines (order := Sample.mapRange) (Some prefixTemplates)
  ≠ keySortedLines (order := Sample.mapRange) (Some prefixTemplates).
Proof. vm_compute. discriminate. Qed.

Lemma GetRoleDevVersion_empty_templates_counterexample :
  roleSignatureText (S := Sample.signatureEnv) (order := Sample.mapRange)
    (sortPackages := Sample.sortPackages) noTemplates
  ≠ specRoleSignatureText (S := Sample.signatureEnv) (order := Sample.mapRange)
      (sortPackages := Sample.sortPackages) noTemplates.
Proof. vm_compute. discriminate. Qed.

Example GetRoleDevVersion_noTemplates :
  templateCount noTemplates = 0 ∧
  GetRoleDevVersion noTemplates
  = Some ("sha1(" +:+ nl +:+ "1f2e" +:+ nl +:+ "90bc" +:+ nl +:+ "77aa"
          +:+ nl +:+ "sha1()" +:+ nl +:+ "sha1()" +:+ ")", None).
Proof. split; vm_compute; reflexivity. Qed.

Lemma GetRoleManifestDevPackageVersion_keeps_caller_list_witness :
  slice_elems callerStore callerSlice = Some [roleOf "web" "" None; roleOf "api" "" None] ∧
  slice_elems (GetRoleManifestDevPackageVersion emptyManifest callerStore callerSlice "salt").1
    callerSlice
  = Some [roleOf "web" "" None; roleOf "api" "" None].
Proof.
  split; [reflexivity|].
  exact (proj1 (GetRoleManifestDevPackageVersion_keeps_caller_list emptyManifest callerStore
                  callerSlice "salt" _ eq_refl)).
Defined.

(** C1 (the code differs). A role without run section makes
    [validateRoleRun] report the missing section, and the loader reports it
    for a role without type; but for the same role with the type given as
    [bosh] the loader returns the manifest and no error: the [continue] of
    the type switch skips the role-run pass. *)
Theorem LoadRoleManifest_explicit_bosh_not_validated :
  validateRoleRun explicitBosh emptyManifest ∅
  = Some (explicitBosh, [validation.Required "roles[api].run" ""]) ∧
  (∃ m, LoadRoleManifest (L := Sample.loaderEnv ([explicitBosh], None)) manifestPath []
        = Some (Some m, None) ∧
        r_Run <$> m_Roles m = [None]) ∧
  LoadRoleManifest (L := Sample.loaderEnv ([implicitBosh], None)) manifestPath []
  = Some (None, Some (Err "roles[api].run")).
Proof.
  split; [reflexivity|]. split; [|vm_compute; reflexivity].
  eexists. split; [vm_compute; reflexivity|]. reflexivity.
Qed.
End examples.

(** * Further properties *)

(** ** The order of the declarations *)

Lemma ltb_empty_r (s : string) : String.ltb s "" = false.
Proof. by destruct s. Qed.

Lemma ltb_false_le (a b : string) : String.ltb b a = false ↔ String.le a b.
Proof.
  unfold String.le, String.leb, String.ltb. rewrite (String.compare_antisym b a).
  destruct (String.compare a b); simpl; split; intros; done.
Qed.

Lemma validateVariableSorting_findings (variables : list ConfigurationVariable) :
  validateVariableSorting variables = sortingFindings "" variables.
Proof.
  unfold validateVariableSorting.
  assert (∀ allErrs previousName,
    (foldl (λ '(allErrs, previousName) cv,
           ((if String.ltb (cv_Name cv) previousName
             then allErrs ++ [validation.Invalid "configuration.variables"
                                (VStr previousName)
                                ("Does not sort before '" +:+ cv_Name cv +:+ "'")]
             else allErrs),
            cv_Name cv))
      (allErrs, previousName) variables).1
    = allErrs ++ sortingFindings previousName variables) as Hgen.
  { induction variables as [|cv variables IH]; intros allErrs previousName; simpl.
    - by rewrite app_nil_r.
    - rewrite IH. destruct (String.ltb (cv_Name cv) previousName); simpl; [|done].
      by rewrite <- app_assoc. }
  apply (Hgen [] "").
Qed.

Lemma sortingFindings_nil (previousName : string) (variables : list ConfigurationVariable) :
  sortingFindings previousName variables = [] ↔
  (∀ b, head variables = Some b → String.ltb (cv_Name b) previousName = false) ∧
  Sorted (λ a b, ConfigurationVariableSlice_Less b a = false) variables.
Proof.
  revert previousName. induction variables as [|cv variables IH]; intros previousName; simpl.
  - split; [intros _; split; [done|constructor]|done].
  - rewrite app_nil, IH. split.
    + intros (Hhd & Hhd' & Hs). split.
      * intros b [= <-]. by destruct (String.ltb (cv_Name cv) previousName).
      * constructor; [done|]. destruct variables as [|b variables]; constructor.
        by apply Hhd'.
    + intros [Hhd Hs]. apply Sorted_inv in Hs as [Hs Hhd'].
      split; [by rewrite (Hhd cv eq_refl)|]. split; [|done].
      intros b Hb. destruct variables as [|b' variables]; [done|].
      injection Hb as ->. by apply HdRel_inv in Hhd'.
Qed.

Lemma sortingFindings_elem (previousName : string) (variables : list ConfigurationVariable)
    (e : Error) :
  e ∈ sortingFindings previousName variables ↔
  (∃ b, head variables = Some b ∧ String.ltb (cv_Name b) previousName = true ∧
        e = outOfOrder previousName (cv_Name b)) ∨
  (∃ i a b, variables !! i = Some a ∧ variables !! S i = Some b ∧
            ConfigurationVariableSlice_Less b a = true ∧
            e = outOfOrder (cv_Name a) (cv_Name b)).
Proof.
  revert previousName. induction variables as [|cv variables IH]; intros previousName; simpl.
  - rewrite elem_of_nil. split; [done|]. intros [(b & ? & _)|(i & a & b & ? & _)]; done.
  - rewrite elem_of_app, IH. split.
    + intros [Hhd|[(b & Hb & Hlt & ->)|(i & a & b & Ha & Hb & Hlt & ->)]].
      * destruct (String.ltb (cv_Name cv) previousName) eqn:Hlt; [|by apply elem_of_nil in Hhd].
        apply list_elem_of_singleton in Hhd as ->. left. eauto.
      * right. exists 0, cv, b. split; [done|]. split; [by destruct variables|done].
      * right. exists (S i), a, b. done.
    + intros [(b & Hb & Hlt & ->)|(i & a & b & Ha & Hb & Hlt & ->)].
      * injection Hb as <-. left. rewrite Hlt. by apply list_elem_of_singleton.
      * right. destruct i as [|i].
        -- injection Ha as <-. left. exists b. split; [by destruct variables|done].
        -- right. exists i, a, b. done.
Qed.

(** X1. [validateVariableSorting] reports nothing exactly when the
    declarations are sorted by the [Less] of their slice type (equal names
    side by side pass), and its findings are exactly those of the adjacent
    pairs out of order: the finding carries the name of the earlier
    declaration as the bad value and quotes the later one. The first
    declaration is never reported. *)
Theorem validateVariableSorting_adjacent_pairs (variables : list ConfigurationVariable) :
  (validateVariableSorting variables = [] ↔
   Sorted (λ a b, ConfigurationVariableSlice_Less b a = false) variables) ∧
  (∀ e, e ∈ validateVariableSorting variables ↔
        ∃ i a b, variables !! i = Some a ∧ variables !! S i = Some b ∧
                 ConfigurationVariableSlice_Less b a = true ∧
                 e = outOfOrder (cv_Name a) (cv_Name b)).
Proof.
  rewrite validateVariableSorting_findings. split.
  - rewrite sortingFindings_nil. split; [by intros [_ ?]|]. intros Hs. split; [|done].
    intros b _. apply ltb_empty_r.
  - intros e. rewrite sortingFindings_elem. split; [|by right].
    intros [(b & _ & Hlt & _)|?]; [|done]. by rewrite ltb_empty_r in Hlt.
Qed.

(** ** The flight stage and the frame of the role-run pass *)

Lemma normalizeFlightStage_normalized (role : Role) (run : RoleRun) :
  r_Run role = Some run →
  ∃ errs,
    normalizeFlightStage role = Some (normalizedRole role, errs) ∧
    normalizeFlightStage (normalizedRole role) = Some (normalizedRole role, errs) ∧
    (errs = [] ↔ run_FlightStage run ∈ knownStages).
Proof.
  intros Hrun. destruct role; simpl in *; subst. destruct run as [? ? ? ? ? ? ? fs ? ?].
  unfold normalizeFlightStage, normalizedRole, normalizedStage, knownStages; simpl.
  destruct (decide (fs = "")) as [->|H0].
  { eexists. split; [reflexivity|]. split; [reflexivity|]. split; [intros _; left|done]. }
  destruct (decide (fs = FlightStagePreFlight)) as [->|H1].
  { eexists. split; [reflexivity|]. split; [reflexivity|]. split; [intros _|done].
    right; left. }
  destruct (decide (fs = FlightStageFlight)) as [->|H2].
  { eexists. split; [reflexivity|]. split; [reflexivity|]. split; [intros _|done].
    do 2 right; left. }
  destruct (decide (fs = FlightStagePostFlight)) as [->|H3].
  { eexists. split; [reflexivity|]. split; [reflexivity|]. split; [intros _|done].
    do 3 right; left. }
  destruct (decide (fs = FlightStageManual)) as [->|H4].
  { eexists. split; [reflexivity|]. split; [reflexivity|]. split; [intros _|done].
    do 4 right; left. }
  eexists. split; [reflexivity|].
  rewrite !decide_False by done. split; [reflexivity|]. split; [done|].
  rewrite !elem_of_cons, elem_of_nil. intuition congruence.
Qed.

(** X2. On a role with a run section, [normalizeFlightStage] leaves a
    role whose flight stage is not empty: the default [flight] replaces an
    empty stage and any other stage is kept, the role being otherwise
    untouched. It reports nothing exactly for the empty stage and the four
    known ones, and running it again on its result changes nothing and
    reports the same. *)
Theorem normalizeFlightStage_fills_default (role : Role) (run : RoleRun) :
  r_Run role = Some run →
  ∃ role' run' errs,
    normalizeFlightStage role = Some (role', errs) ∧
    role' = normalizedRole role ∧
    r_Run role' = Some run' ∧
    run_FlightStage run' ≠ "" ∧
    (run_FlightStage run ≠ "" → role' = role) ∧
    (errs = [] ↔ run_FlightStage run ∈ knownStages) ∧
    normalizeFlightStage role' = Some (role', errs).
Proof.
  intros Hrun. destruct (normalizeFlightStage_normalized role run Hrun) as (errs & H1 & H2 & H3).
  exists (normalizedRole role),
    (set_FlightStage (normalizedStage (run_FlightStage run)) run), errs.
  split; [done|]. split; [done|]. split; [|split; [|split; [|split; [done|done]]]].
  - unfold normalizedRole. by rewrite Hrun.
  - simpl. unfold normalizedStage. by case_decide.
  - intros Hne. unfold normalizedRole, normalizedStage. rewrite Hrun.
    rewrite decide_False by done.
    destruct role; simpl in *; subst. by destruct run.
Qed.

Lemma validateRoleRun_frame {V : ValidationPkg} (role : Role) (declared : CVMap) :
  ∃ errs,
    (∀ m, validateRoleRun role m declared = Some (normalizedRole role, errs)) ∧
    (∀ m, validateRoleRun (normalizedRole role) m declared = Some (normalizedRole role, errs)).
Proof.
  destruct (r_Run role) as [run|] eqn:Hrun.
  - destruct (normalizeFlightStage_normalized role run Hrun) as (e1 & H1 & H2 & _).
    unfold validateRoleRun. rewrite Hrun, H1.
    assert (Hrun' : r_Run (normalizedRole role)
                    = Some (set_FlightStage (normalizedStage (run_FlightStage run)) run)).
    { unfold normalizedRole. by rewrite Hrun. }
    rewrite Hrun'. cbn [mbind option_bind]. rewrite H2. cbn [mbind option_bind].
    destruct (validateHealthCheck_is_Some (normalizedRole role) _ Hrun') as [e2 ->].
    cbn [mbind option_bind]. rewrite Hrun'. cbn [mbind option_bind].
    case_decide; [|case_decide]; (eexists; split; intros m; reflexivity).
  - unfold validateRoleRun, normalizedRole. rewrite Hrun. eexists. split; [reflexivity|].
    intros m'. by rewrite Hrun.
Qed.


(** ** Tags *)

(** X4. [HasTag] is membership in the tags of the role, and [IsDevRole]
    is [HasTag] of ["dev-only"]. *)
Theorem HasTag_membership (r : Role) (tag : string) :
  (HasTag r tag = true ↔ tag ∈ r_Tags r) ∧
  IsDevRole r = HasTag r "dev-only".
Proof.
  unfold HasTag, IsDevRole. split.
  - induction (r_Tags r) as [|t tags IH]; simpl.
    + split; [done|by intros ?%elem_of_nil].
    + rewrite elem_of_cons. case_decide; [subst; tauto|]. rewrite IH.
      split; [tauto|]. intros [->|?]; done.
  - induction (r_Tags r) as [|t tags IH]; simpl; [done|]. by rewrite IH.
Qed.

(** ** The releases by name *)

Lemma mapReleases_failed (l : list Release) (err : error) :
  foldl (λ acc release,
           match acc with
           | inr err => inr err
           | inl mappedReleases =>
               match mappedReleases !! rel_Name release with
               | Some _ =>
                   inr (Err ("Error - release " +:+ rel_Name release
                             +:+ " has been loaded more than once"))
               | None => inl (<[rel_Name release := release]> mappedReleases)
               end
           end) (inr err) l = (inr err : gmap string Release + error).
Proof. induction l as [|r l IH]; simpl; [done|apply IH]. Qed.

Lemma mapReleases_gen (l seen : list Release) (acc : gmap string Release) :
  NoDup (rel_Name <$> seen) →
  (∀ name r, acc !! name = Some r ↔ r ∈ seen ∧ rel_Name r = name) →
  match
    foldl (λ acc release,
           match acc with
           | inr err => inr err
           | inl mappedReleases =>
               match mappedReleases !! rel_Name release with
               | Some _ =>
                   inr (Err ("Error - release " +:+ rel_Name release
                             +:+ " has been loaded more than once"))
               | None => inl (<[rel_Name release := release]> mappedReleases)
               end
           end) (inl acc) l
  with
  | inl mapped =>
      NoDup (rel_Name <$> seen ++ l) ∧
      ∀ name r, mapped !! name = Some r ↔ r ∈ seen ++ l ∧ rel_Name r = name
  | inr err =>
      ∃ before name after,
        rel_Name <$> seen ++ l = before ++ name :: after ∧
        name ∈ before ∧ NoDup before ∧ err = loadedTwice name
  end.
Proof.
  revert seen acc. induction l as [|r0 l IH]; intros seen acc Hnd Hacc; simpl.
  - by rewrite app_nil_r.
  - destruct (acc !! rel_Name r0) as [r1|] eqn:Hl.
    + rewrite mapReleases_failed.
      exists (rel_Name <$> seen), (rel_Name r0), (rel_Name <$> l).
      split; [by rewrite fmap_app|]. split; [|done].
      apply Hacc in Hl as [Hin Hname]. apply list_elem_of_fmap. eauto.
    + specialize (IH (seen ++ [r0]) (<[rel_Name r0 := r0]> acc)).
      rewrite <- (assoc_L (++)) in IH. simpl in IH. apply IH.
      * rewrite fmap_app. apply NoDup_app. split; [done|]. split; [|apply NoDup_singleton].
        intros name (r & -> & Hin)%list_elem_of_fmap Hname.
        apply list_elem_of_singleton in Hname.
        assert (acc !! rel_Name r0 = Some r) as Hsome by (by apply Hacc).
        congruence.
      * intros name r. rewrite elem_of_app, list_elem_of_singleton.
        destruct (decide (rel_Name r0 = name)) as [<-|Hne].
        -- rewrite lookup_insert_eq. split.
           ++ intros [= <-]. by split; [right|].
           ++ intros [[Hin| ->] Hname]; [|done].
              assert (acc !! rel_Name r0 = Some r) as Hsome by (by apply Hacc).
              congruence.
        -- rewrite lookup_insert_ne by done. rewrite Hacc. split.
           ++ intros [? ?]. by split; [left|].
           ++ intros [[Hin| ->] Hname]; [done|congruence].
Qed.

Lemma mapReleases_char (releases : list Release) :
  match mapReleases releases with
  | inl mapped =>
      NoDup (rel_Name <$> releases) ∧
      ∀ name release,
        mapped !! name = Some release ↔ release ∈ releases ∧ rel_Name release = name
  | inr err =>
      ∃ before name after,
        rel_Name <$> releases = before ++ name :: after ∧
        name ∈ before ∧ NoDup before ∧ err = loadedTwice name
  end.
Proof.
  apply (mapReleases_gen releases [] ∅); [constructor|].
  intros name r. rewrite lookup_empty, elem_of_nil. split; [done|tauto].
Qed.

(** X5. The loop that maps the releases by name succeeds exactly when
    the names are distinct, and the map then holds every release under
    its name and nothing else; otherwise the error names the first name
    that comes a second time. *)
Theorem mapReleases_distinct_names (releases : list Release) :
  match mapReleases releases with
  | inl mapped =>
      NoDup (rel_Name <$> releases) ∧
      ∀ name release,
        mapped !! name = Some release ↔ release ∈ releases ∧ rel_Name release = name
  | inr err =>
      ∃ before name after,
        rel_Name <$> releases = before ++ name :: after ∧
        name ∈ before ∧ NoDup before ∧ err = loadedTwice name
  end.
Proof. exact (mapReleases_char releases). Qed.

(** ** The two loops of the loader and what it returns *)


Section more_loading.
Context {V : ValidationPkg} {M : ModelPkg} {order : MapRange} {L : LoaderEnv}.

Lemma validateRoleRun_runFindings (role : Role) (m : RoleManifest) (declared : CVMap) :
  validateRoleRun role m declared = Some (normalizedRole role, runFindings role declared).
Proof.
  destruct (validateRoleRun_frame role declared) as (errs & H1 & _).
  unfold runFindings. by rewrite !H1.
Qed.

Lemma normalizedRole_Type (role : Role) : r_Type (normalizedRole role) = r_Type role.
Proof. unfold normalizedRole. by destruct (r_Run role). Qed.


Lemma set_Roles_twice (roles roles' : Roles) (m : RoleManifest) :
  set_Roles roles (set_Roles roles' m) = set_Roles roles m.
Proof. done. Qed.

Lemma roleTypeLoop_char (n : nat) (declared : CVMap) (m : RoleManifest) (errs : ErrorList) :
  n ≤ length (m_Roles m) →
  roleTypeLoop n declared (m, errs)
  = Some (set_Roles (omap keptRole (take n (m_Roles m)) ++ drop n (m_Roles m)) m,
          errs ++ concat (typeFindings declared <$> reverse (take n (m_Roles m)))).
Proof.
  revert m errs. induction n as [|i IH]; intros m errs Hn.
  - simpl. rewrite drop_0, app_nil_r. by destruct m.
  - cbn [roleTypeLoop]. destruct (lookup_lt_is_Some_2 (m_Roles m) i ltac:(lia)) as [role Hrole].
    rewrite Hrole. cbn [mbind option_bind].
    rewrite (take_S_r _ _ _ Hrole), omap_app, reverse_app, fmap_app, concat_app.
    pose proof (eq_refl (keptRole role)) as Hk. unfold keptRole at 2 in Hk.
    pose proof (eq_refl (typeFindings declared role)) as Ht. unfold typeFindings at 2 in Ht.
    assert (Hone : concat (typeFindings declared <$> reverse [role])
                   = typeFindings declared role) by (simpl; by rewrite app_nil_r).
    rewrite Hone. clear Hone.
    assert (Hk1 : ∀ r, keptRole role = Some r → omap keptRole [role] = [r])
      by (intros r Hr; simpl; by rewrite Hr).
    assert (Hk0 : keptRole role = None → omap keptRole [role] = [])
      by (intros Hr; simpl; by rewrite Hr).
    destruct (decide (r_Type role = "")) as [Hempty|Hempty];
      [|destruct (decide (r_Type role = RoleTypeBosh ∨ r_Type role = RoleTypeBoshTask))
          as [Hbosh|Hbosh];
        [|destruct (decide (r_Type role = RoleTypeDocker)) as [Hdocker|Hdocker]]].
    + rewrite validateRoleRun_runFindings. cbn [mbind option_bind].
      rewrite IH by (simpl; rewrite length_insert; lia). cbn [m_Roles set_Roles].
      rewrite set_Roles_twice, insert_take_drop by lia.
      rewrite take_app_length' by (rewrite length_take; lia).
      rewrite drop_app_length' by (rewrite length_take; lia).
      rewrite (Hk1 _ Hk), Ht, <- !app_assoc. done.
    + rewrite IH by lia. rewrite (drop_S _ _ _ Hrole) at 1.
      rewrite (Hk1 _ Hk), Ht, <- !app_assoc. done.
    + rewrite validateRoleRun_runFindings. cbn [mbind option_bind].
      rewrite IH by (simpl; rewrite length_app, length_take, length_drop; lia).
      cbn [m_Roles set_Roles]. rewrite set_Roles_twice.
      rewrite take_app_length' by (rewrite length_take; lia).
      rewrite drop_app_length' by (rewrite length_take; lia).
      rewrite (Hk0 Hk), Ht, app_nil_r, <- !app_assoc. done.
    + rewrite validateRoleRun_runFindings. cbn [mbind option_bind].
      rewrite IH by (simpl; rewrite length_insert; lia). cbn [m_Roles set_Roles].
      rewrite set_Roles_twice, insert_take_drop by lia.
      rewrite take_app_length' by (rewrite length_take; lia).
      rewrite drop_app_length' by (rewrite length_take; lia).
      rewrite (Hk1 _ Hk), Ht, <- !app_assoc. done.
Qed.

Lemma omap_cons_app {A B : Type} (f : A → option B) (x : A) (l : list A) :
  omap f (x :: l) = option_list (f x) ++ omap f l.
Proof. simpl. by destruct (f x). Qed.

Lemma resolveJobs_char (mapped : gmap string Release) (role : Role) (errs : ErrorList) :
  resolveJobs mapped role errs
  = (omap (jobOf mapped) (r_JobNameList role),
     errs ++ omap (jobFinding mapped role) (r_JobNameList role)).
Proof.
  unfold resolveJobs.
  assert (∀ l jobs0 errs0,
    foldl (λ '(jobs, allErrs) rj,
           match mapped !! rj_ReleaseName rj with
           | None => (jobs, allErrs ++ [releaseNotLoaded role rj])
           | Some release =>
               match rel_LookupJob release (rj_Name rj) with
               | inr err => (jobs, allErrs ++ [jobLookupFailed role rj err])
               | inl job => (jobs ++ [job], allErrs)
               end
           end) (jobs0, errs0) l
    = (jobs0 ++ omap (jobOf mapped) l, errs0 ++ omap (jobFinding mapped role) l)) as Hgen.
  { induction l as [|rj l IH]; intros jobs0 errs0.
    - simpl. by rewrite !app_nil_r.
    - rewrite !omap_cons_app. cbn [foldl]. unfold jobOf at 1, jobFinding at 1.
      destruct (mapped !! rj_ReleaseName rj) as [release|]; cbn [mbind option_bind].
      + destruct (rel_LookupJob release (rj_Name rj)) as [job|err];
          rewrite IH; simpl; by rewrite <- ?app_assoc.
      + rewrite IH. simpl. by rewrite <- ?app_assoc. }
  apply (Hgen (r_JobNameList role) [] errs).
Qed.

Lemma resolve_each (mapped : gmap string Release) (role : Role) (l : list roleJob) :
  length (omap (jobOf mapped) l) + length (omap (jobFinding mapped role) l) = length l ∧
  (omap (jobFinding mapped role) l = [] ↔
   Forall2 (λ rj job, jobOf mapped rj = Some job) l (omap (jobOf mapped) l)).
Proof.
  induction l as [|rj l [IH1 IH2]]; [split; [done|]; split; [constructor|done]|].
  rewrite !omap_cons_app.
  assert (Hcases : (∃ job, jobOf mapped rj = Some job ∧ jobFinding mapped role rj = None) ∨
                   (∃ e, jobOf mapped rj = None ∧ jobFinding mapped role rj = Some e)).
  { unfold jobOf, jobFinding. destruct (mapped !! rj_ReleaseName rj) as [release|]; simpl;
      [destruct (rel_LookupJob release (rj_Name rj))|]; eauto. }
  destruct Hcases as [(job & Hj & Hf)|(e & Hj & Hf)]; rewrite Hj, Hf; simpl.
  - split; [lia|]. rewrite IH2. split.
    + intros ?. by constructor.
    + by intros [_ ?]%Forall2_cons.
  - split; [lia|]. split; [done|]. intros Hl%Forall2_length. simpl in Hl. lia.
Qed.

Lemma foldl_insert_list (l : list (string * string)) (acc : gmap string string) :
  NoDup l.*1 →
  foldl (λ acc '(k, v), <[k := v]> acc) acc l = list_to_map l ∪ acc.
Proof.
  revert acc. induction l as [|[k v] l IH]; intros acc Hnd.
  - simpl. by rewrite (left_id_L ∅ (∪)).
  - rewrite fmap_cons in Hnd. apply NoDup_cons in Hnd as [Hk Hnd].
    cbn [foldl list_to_map foldr uncurry fst snd]. rewrite IH by done.
    rewrite <- insert_union_l. symmetry. apply insert_union_r.
    by apply not_elem_of_list_to_map_1.
Qed.

Lemma foldl_insert_range (m : option (gmap string string)) (acc : gmap string string) :
  foldl (λ acc '(k, v), <[k := v]> acc) acc (map_range_nil m) = default ∅ m ∪ acc.
Proof.
  destruct m as [m|]; simpl; [|by rewrite (left_id_L ∅ (∪))].
  assert (Hnd : NoDup (map_range m).*1).
  { rewrite (map_range_perm m). apply NoDup_fst_map_to_list. }
  rewrite foldl_insert_list by done. f_equal.
  rewrite (list_to_map_proper _ _ Hnd (map_range_perm m)). apply list_to_map_to_list.
Qed.

Lemma calculateRoleConfigurationTemplates_char (r : Role) :
  calculateRoleConfigurationTemplates r
  = (ref ← r_rolesManifest r;
     gconf ← ref_Configuration ref;
     Some (set_Configuration
             (Some (mkConfiguration (Some (mergedTemplates r gconf))
                      (conf_Variables (default (mkConfiguration None []) (r_Configuration r)))))
             r)).
Proof.
  unfold calculateRoleConfigurationTemplates.
  destruct (r_rolesManifest r) as [ref|]; [|done]. cbn [mbind option_bind].
  destruct (ref_Configuration ref) as [gconf|]; [|done]. cbn [mbind option_bind].
  rewrite !foldl_insert_range. cbn [conf_Templates default from_option].
  rewrite (right_id_L ∅ (∪)). unfold mergedTemplates, roleTemplates.
  destruct (r_Configuration r) as [[[t|] vars]|]; done.
Qed.

Lemma resolveRole_char (mapped : gmap string Release) (m : RoleManifest) (gconf : Configuration)
    (done : Roles) (idx : gmap string Role) (errs : ErrorList) (role : Role) :
  m_Configuration m = Some gconf →
  resolveRole mapped m (done, idx, errs) role
  = Some (done ++ [resolvedRole mapped (m_manifestFilePath m) gconf role],
          <[r_Name role := resolvedRole mapped (m_manifestFilePath m) gconf role]> idx,
          errs ++ omap (jobFinding mapped role) (r_JobNameList role)).
Proof.
  intros Hconf. unfold resolveRole. rewrite resolveJobs_char, Hconf.
  rewrite calculateRoleConfigurationTemplates_char. reflexivity.
Qed.

Lemma resolveRoles_char (mapped : gmap string Release) (m : RoleManifest) (gconf : Configuration)
    (l done : Roles) (idx : gmap string Role) (errs : ErrorList) :
  m_Configuration m = Some gconf →
  foldM (resolveRole mapped m) (done, idx, errs) l
  = Some (done ++ (resolvedRole mapped (m_manifestFilePath m) gconf <$> l),
          foldl (λ idx r, <[r_Name r := r]> idx) idx
            (resolvedRole mapped (m_manifestFilePath m) gconf <$> l),
          errs ++ concat ((λ role, omap (jobFinding mapped role) (r_JobNameList role)) <$> l)).
Proof.
  intros Hconf. revert done idx errs. induction l as [|role l IH]; intros done idx errs.
  - simpl. by rewrite !app_nil_r.
  - cbn [foldM]. rewrite (resolveRole_char _ _ gconf) by done. cbn [mbind option_bind].
    rewrite IH. rewrite !fmap_cons. cbn [foldl concat]. by rewrite <- !app_assoc.
Qed.

Lemma resolvedRole_hasTemplates mapped path gconf role :
  hasTemplates (resolvedRole mapped path gconf role).
Proof. unfold hasTemplates, resolvedRole. simpl. eauto. Qed.

Lemma LoadRoleManifest_passes (path : string) (releases : list Release) (contents : string)
    (mapped : gmap string Release) (roles : Roles) (configuration : option Configuration) :
  ioutil_ReadFile path = inl contents →
  mapReleases releases = inl mapped →
  yaml_Unmarshal contents = inl (roles, configuration) →
  let m0 := initialManifest path roles configuration in
  let declared : CVMap := Some <$> MakeMapOfVariables m0 in
  ∃ gconf usageErrs templateErrs constErrs,
    m_Configuration m0 = Some gconf ∧
    let rs := resolvedRole mapped path gconf <$> omap keptRole roles in
    let m := mkRoleManifest rs (Some gconf) path (foldl (λ idx r, <[r_Name r := r]> idx) ∅ rs) in
    validateVariableUsage m = Some usageErrs ∧
    validateTemplateUsage m = Some templateErrs ∧
    validateNonTemplates m = Some constErrs ∧
    let allErrs :=
      concat (typeFindings declared <$> reverse roles)
      ++ concat ((λ role, omap (jobFinding mapped role) (r_JobNameList role))
                   <$> omap keptRole roles)
      ++ validateVariableSorting (conf_Variables gconf)
      ++ usageErrs ++ templateErrs ++ constErrs in
    LoadRoleManifest path releases
    = if decide (allErrs = []) then Some (Some m, None)
      else Some (None, Some (Err (fmt_Sprintf0 (ErrorList_Errors allErrs)))).
Proof.
  intros Hread Hrel Hyaml m0 declared.
  set (conf0 := default (mkConfiguration None []) configuration).
  set (gconf := mkConfiguration (Some (default ∅ (conf_Templates conf0))) (conf_Variables conf0)).
  assert (Hc0 : m_Configuration m0 = Some gconf) by done.
  exists gconf.
  set (rs := resolvedRole mapped path gconf <$> omap keptRole roles).
  set (m := mkRoleManifest rs (Some gconf) path (foldl (λ idx r, <[r_Name r := r]> idx) ∅ rs)).
  assert (Hresolved : resolved m).
  { apply hasTemplates_resolved; [simpl; eauto|]. simpl. unfold rs.
    apply Forall_fmap, Forall_true. intros r. apply resolvedRole_hasTemplates. }
  destruct (validateVariableUsage_char m Hresolved) as (names & Husage & _).
  destruct (validateTemplateUsage_char m Hresolved) as (new1 & new2 & Htmpl & _).
  destruct (validateNonTemplates_total m) as [constErrs Hconst]; [simpl; eauto|].
  eexists _, _, constErrs. split; [done|]. cbn zeta.
  split; [exact Husage|]. split; [exact Htmpl|]. split; [exact Hconst|].
  unfold LoadRoleManifest. rewrite Hread, Hrel, Hyaml. fold m0. cbn zeta. fold declared.
  rewrite roleTypeLoop_char by done. rewrite firstn_all, drop_all, app_nil_r.
  cbn [mbind option_bind]. unfold resolveRoles.
  rewrite (resolveRoles_char _ _ gconf) by done. cbn [mbind option_bind].
  cbn [m_Roles set_Roles m_manifestFilePath m_Configuration set_rolesByName].
  assert (Hpath : m_manifestFilePath m0 = path) by done. rewrite Hpath, Hc0.
  cbn [mbind option_bind app].
  match goal with |- context [validateVariableUsage ?x] => change x with m end.
  rewrite Husage. cbn [mbind option_bind]. rewrite Htmpl. cbn [mbind option_bind].
  rewrite Hconst. cbn [mbind option_bind]. rewrite <- !app_assoc.
  change (m_Roles m0) with roles.
  match goal with
  | |- context [decide (?l = [])] => destruct (decide (l = [])) as [Hall|Hall]
  end.
  - rewrite decide_False; [done|]. rewrite Hall. simpl. lia.
  - rewrite decide_True; [done|]. intros Hl. apply Hall. by apply nil_length_inv.
Qed.

Lemma LoadRoleManifest_returned (path : string) (releases : list Release) (m : RoleManifest) :
  LoadRoleManifest path releases = Some (Some m, None) →
  ∃ contents mapped roles configuration gconf,
    ioutil_ReadFile path = inl contents ∧
    mapReleases releases = inl mapped ∧
    yaml_Unmarshal contents = inl (roles, configuration) ∧
    let m0 := initialManifest path roles configuration in
    let declared : CVMap := Some <$> MakeMapOfVariables m0 in
    m_Configuration m0 = Some gconf ∧
    let rs := resolvedRole mapped path gconf <$> omap keptRole roles in
    m = mkRoleManifest rs (Some gconf) path (foldl (λ idx r, <[r_Name r := r]> idx) ∅ rs) ∧
    concat (typeFindings declared <$> reverse roles) = [] ∧
    concat ((λ role, omap (jobFinding mapped role) (r_JobNameList role))
              <$> omap keptRole roles) = [] ∧
    validateVariableSorting (conf_Variables gconf) = [] ∧
    validateVariableUsage m = Some [] ∧
    validateTemplateUsage m = Some [] ∧
    validateNonTemplates m = Some [].
Proof.
  intros Hload.
  destruct (ioutil_ReadFile path) as [contents|err] eqn:Hread;
    [|unfold LoadRoleManifest in Hload; by rewrite Hread in Hload].
  destruct (mapReleases releases) as [mapped|err] eqn:Hrel;
    [|unfold LoadRoleManifest in Hload; by rewrite Hread, Hrel in Hload].
  destruct (yaml_Unmarshal contents) as [[roles configuration]|err] eqn:Hyaml;
    [|unfold LoadRoleManifest in Hload; by rewrite Hread, Hrel, Hyaml in Hload].
  destruct (LoadRoleManifest_passes path releases contents mapped roles configuration
              Hread Hrel Hyaml) as (gconf & e1 & e2 & e3 & Hc0 & H1 & H2 & H3 & Hres).
  cbn zeta in *. rewrite Hload in Hres.
  case_decide as Hall; [|discriminate]. injection Hres as ->.
  apply app_eq_nil in Hall as [Ha Hall]. apply app_eq_nil in Hall as [Hb Hall].
  apply app_eq_nil in Hall as [Hc Hall]. apply app_eq_nil in Hall as [-> Hall].
  apply app_eq_nil in Hall as [-> ->].
  by exists contents, mapped, roles, configuration, gconf.
Qed.

Lemma elem_of_concat {A : Type} (ls : list (list A)) (x : A) :
  x ∈ concat ls ↔ ∃ l, x ∈ l ∧ l ∈ ls.
Proof.
  induction ls as [|l0 ls IH]; simpl.
  - rewrite elem_of_nil. split; [done|]. by intros (l & _ & ?%elem_of_nil).
  - rewrite elem_of_app, IH. split.
    + intros [?|(l & ? & ?)]; [exists l0|exists l]; (split; [done|]); by constructor.
    + intros (l & Hx & [->|Hl]%elem_of_cons); [by left|right; eauto].
Qed.

Lemma concat_nil_elem {A : Type} (ls : list (list A)) (l : list A) :
  concat ls = [] → l ∈ ls → l = [].
Proof.
  induction ls as [|l0 ls IH]; [by intros _ ?%elem_of_nil|].
  simpl. intros [-> Hls]%app_eq_nil [->|Hin]%elem_of_cons; [done|by apply IH].
Qed.

Lemma jobOf_resolvesIn (releases : list Release) (mapped : gmap string Release)
    (rj : roleJob) (job : Job) :
  mapReleases releases = inl mapped →
  jobOf mapped rj = Some job → resolvesIn releases rj job.
Proof.
  intros Hrel Hjob. pose proof (mapReleases_char releases) as Hchar. rewrite Hrel in Hchar.
  destruct Hchar as [_ Hmapped]. unfold jobOf in Hjob.
  destruct (mapped !! rj_ReleaseName rj) as [release|] eqn:Hl; [|done]. simpl in Hjob.
  apply Hmapped in Hl as [Hin Hname].
  destruct (rel_LookupJob release (rj_Name rj)) as [job'|] eqn:Hj; [|done].
  injection Hjob as ->. by exists release.
Qed.

Lemma keptRole_typeFindings (declared : CVMap) (role role' : Role) :
  keptRole role = Some role' → typeFindings declared role = [] →
  r_Type role' = RoleTypeBosh ∨ r_Type role' = RoleTypeBoshTask.
Proof.
  unfold keptRole, typeFindings. intros Hk Ht.
  case_decide as H0; [|case_decide as H1; [|case_decide as H2]]; simplify_eq.
  - rewrite normalizedRole_Type. by left.
  - done.
Qed.

(** X10. A manifest that [LoadRoleManifest] returns carries the path it
    was loaded from and a configuration with a template mapping whose
    declarations are sorted by name; the releases had distinct names; and
    each of its roles is of type [bosh] or [bosh-task], refers back to the
    manifest, and has one job for each of its job references, in their
    order, looked up in the release the reference names. *)
Theorem LoadRoleManifest_returned_manifest (path : string) (releases : list Release)
    (m : RoleManifest) :
  LoadRoleManifest path releases = Some (Some m, None) →
  m_manifestFilePath m = path ∧
  NoDup (rel_Name <$> releases) ∧
  (∃ gconf templates,
     m_Configuration m = Some gconf ∧ conf_Templates gconf = Some templates ∧
     Sorted (λ a b, ConfigurationVariableSlice_Less b a = false) (conf_Variables gconf)) ∧
  Forall (λ r, (r_Type r = RoleTypeBosh ∨ r_Type r = RoleTypeBoshTask) ∧
               r_rolesManifest r = Some (mkManifestRef path (m_Configuration m)) ∧
               Forall2 (resolvesIn releases) (r_JobNameList r) (r_Jobs r))
    (m_Roles m).
Proof.
  intros Hload.
  destruct (LoadRoleManifest_returned path releases m Hload)
    as (contents & mapped & roles & configuration & gconf & Hread & Hrel & Hyaml & Hc0
        & -> & Htype & Hjobs & Hsort & _).
  cbn [m_manifestFilePath m_Configuration m_Roles]. split; [done|]. split.
  { pose proof (mapReleases_char releases) as Hchar. rewrite Hrel in Hchar. apply Hchar. }
  split.
  { exists gconf. unfold initialManifest in Hc0. simpl in Hc0. injection Hc0 as <-.
    eexists. split; [done|]. split; [done|].
    apply sortingFindings_nil with (previousName := "").
    by rewrite <- validateVariableSorting_findings. }
  apply Forall_fmap, Forall_forall. intros r' Hr'.
  apply list_elem_of_omap in Hr' as (role & Hrole & Hk).
  split; [|split].
  - change (r_Type (resolvedRole mapped path gconf r')) with (r_Type r').
    eapply (keptRole_typeFindings _ role); [done|].
    apply (concat_nil_elem _ _ Htype). apply list_elem_of_fmap. exists role.
    split; [done|]. by apply elem_of_reverse.
  - done.
  - change (r_JobNameList (resolvedRole mapped path gconf r')) with (r_JobNameList r').
    change (r_Jobs (resolvedRole mapped path gconf r'))
      with (omap (jobOf mapped) (r_JobNameList r')).
    assert (Hnone : omap (jobFinding mapped r') (r_JobNameList r') = []).
    { apply (concat_nil_elem _ _ Hjobs). apply list_elem_of_fmap. exists r'.
      split; [done|]. apply list_elem_of_omap. eauto. }
    apply (resolve_each mapped r') in Hnone.
    eapply Forall2_impl; [exact Hnone|]. intros rj job. by apply jobOf_resolvesIn.
Qed.


(** X8. The loop over the job references of a role keeps the findings
    it is given and goes on after a reference that does not resolve: every
    reference gives either a job or one finding, in the order of the
    references, and there is no finding exactly when every reference
    resolves, the jobs then matching the references one by one. *)
Theorem resolveJobs_accounts (mappedReleases : gmap string Release) (role : Role)
    (allErrs : ErrorList) :
  ∃ errs,
    resolveJobs mappedReleases role allErrs
    = (omap (jobOf mappedReleases) (r_JobNameList role), allErrs ++ errs) ∧
    errs = omap (jobFinding mappedReleases role) (r_JobNameList role) ∧
    length (resolveJobs mappedReleases role allErrs).1 + length errs
    = length (r_JobNameList role) ∧
    (errs = [] ↔
     Forall2 (λ rj job, jobOf mappedReleases rj = Some job)
       (r_JobNameList role) (resolveJobs mappedReleases role allErrs).1).
Proof.
  rewrite resolveJobs_char. eexists. split; [done|]. split; [done|].
  apply resolve_each.
Qed.

(** X9. [calculateRoleConfigurationTemplates] panics exactly when the
    role has no manifest or the manifest no configuration. Otherwise it
    changes the configuration of the role only: the declarations are
    kept, and the template mapping becomes the templates of the role laid
    over the global ones (a key of the role wins), whatever the order in
    which the maps are ranged over; calculating again changes nothing. *)
Theorem calculateRoleConfigurationTemplates_overlay (r : Role) :
  match ref ← r_rolesManifest r; ref_Configuration ref with
  | None => calculateRoleConfigurationTemplates r = None
  | Some gconf =>
      ∃ r' conf,
        calculateRoleConfigurationTemplates r = Some r' ∧
        r' = set_Configuration (Some conf) r ∧
        conf_Templates conf = Some (mergedTemplates r gconf) ∧
        conf_Variables conf = from_option conf_Variables [] (r_Configuration r) ∧
        (∀ k, mergedTemplates r gconf !! k
              = match roleTemplates r !! k with
                | Some v => Some v
                | None => lookup_nil (conf_Templates gconf) k
                end) ∧
        calculateRoleConfigurationTemplates r' = Some r'
  end.
Proof.
  rewrite calculateRoleConfigurationTemplates_char.
  destruct (r_rolesManifest r) as [ref|] eqn:Href; [|done]. cbn [mbind option_bind].
  destruct (ref_Configuration ref) as [gconf|] eqn:Hg; [|done]. cbn [mbind option_bind].
  eexists _, _. split; [done|]. split; [done|]. split; [done|]. split.
  { simpl. by destruct (r_Configuration r). }
  split.
  - intros k. unfold mergedTemplates. rewrite lookup_union.
    destruct (roleTemplates r !! k) as [v|]; simpl.
    + by destruct (default ∅ (conf_Templates gconf) !! k).
    + rewrite (left_id_L None _). by destruct (conf_Templates gconf).
  - rewrite calculateRoleConfigurationTemplates_char. simpl. rewrite Href. simpl. rewrite Hg.
    simpl. unfold set_Configuration. simpl. do 4 f_equal.
    unfold mergedTemplates at 1. unfold roleTemplates at 1. simpl.
    unfold mergedTemplates. rewrite <- (assoc_L (∪)). by rewrite (idemp_L (∪)).
Qed.

(** X6. Once the file is read, releases whose names are not distinct
    make [LoadRoleManifest] return no manifest and the error of the first
    name that comes a second time, before the document is decoded. *)
Theorem LoadRoleManifest_release_twice (path : string) (releases : list Release)
    (contents : string) :
  ioutil_ReadFile path = inl contents →
  ¬ NoDup (rel_Name <$> releases) →
  ∃ before name after,
    rel_Name <$> releases = before ++ name :: after ∧
    name ∈ before ∧ NoDup before ∧
    LoadRoleManifest path releases = Some (None, Some (loadedTwice name)).
Proof.
  intros Hread Hdup. pose proof (mapReleases_char releases) as Hchar.
  unfold LoadRoleManifest. rewrite Hread.
  destruct (mapReleases releases) as [mapped|err]; [by destruct Hchar|].
  destruct Hchar as (before & name & after & Hnames & Hin & Hnd & ->).
  by exists before, name, after.
Qed.

Lemma LoadRoleManifest_finding (path : string) (releases : list Release) (contents : string)
    (mapped : gmap string Release) (roles : Roles) (configuration : option Configuration)
    (role : Role) (e : Error) :
  ioutil_ReadFile path = inl contents →
  mapReleases releases = inl mapped →
  yaml_Unmarshal contents = inl (roles, configuration) →
  role ∈ roles →
  e ∈ typeFindings (Some <$> MakeMapOfVariables (initialManifest path roles configuration))
        role →
  ∃ allErrs,
    LoadRoleManifest path releases
    = Some (None, Some (Err (fmt_Sprintf0 (ErrorList_Errors allErrs)))) ∧
    e ∈ allErrs.
Proof.
  intros Hread Hrel Hyaml Hrole He.
  destruct (LoadRoleManifest_passes path releases contents mapped roles configuration
              Hread Hrel Hyaml) as (gconf & e1 & e2 & e3 & Hc0 & H1 & H2 & H3 & Hres).
  cbn zeta in *. rewrite Hres.
  assert (Hin : e ∈ concat
    (typeFindings (Some <$> MakeMapOfVariables (initialManifest path roles configuration))
       <$> reverse roles)).
  { apply elem_of_concat. eexists. split; [exact He|].
    apply list_elem_of_fmap. exists role. split; [done|]. by apply elem_of_reverse. }
  eexists. split.
  - rewrite decide_False; [done|]. intros Hnil. apply app_eq_nil in Hnil as [Hnil _].
    rewrite Hnil in Hin. by apply elem_of_nil in Hin.
  - apply elem_of_app. by left.
Qed.

(** X11. For a role of the document whose type is not given as [bosh] or
    [bosh-task], every finding of [validateRoleRun] on the role (with the
    type defaulted to [bosh] when empty) ends in the error that
    [LoadRoleManifest] returns in place of a manifest; so does the finding
    for an unknown type, and the one for a missing run section. *)
Theorem LoadRoleManifest_reports_role_findings (path : string) (releases : list Release)
    (contents : string) (mapped : gmap string Release) (roles : Roles)
    (configuration : option Configuration) (role : Role) :
  ioutil_ReadFile path = inl contents →
  mapReleases releases = inl mapped →
  yaml_Unmarshal contents = inl (roles, configuration) →
  role ∈ roles →
  ¬ (r_Type role = RoleTypeBosh ∨ r_Type role = RoleTypeBoshTask) →
  let declared : CVMap :=
    Some <$> MakeMapOfVariables (initialManifest path roles configuration) in
  let validated := if decide (r_Type role = "") then set_Type RoleTypeBosh role else role in
  ∀ e,
    e ∈ runFindings validated declared ∨
    (e = badRoleType role ∧ r_Type role ≠ "" ∧ r_Type role ≠ RoleTypeDocker) ∨
    (e = validation.Required ("roles[" +:+ r_Name role +:+ "].run") "" ∧ r_Run role = None) →
    ∃ allErrs,
      LoadRoleManifest path releases
      = Some (None, Some (Err (fmt_Sprintf0 (ErrorList_Errors allErrs)))) ∧
      e ∈ allErrs.
Proof.
  intros Hread Hrel Hyaml Hrole Hbosh declared validated e He.
  apply (LoadRoleManifest_finding path releases contents mapped roles configuration role e);
    try done.
  fold declared.
  assert (Hrun : e ∈ runFindings validated declared → e ∈ typeFindings declared role).
  { unfold typeFindings, validated. case_decide; [done|].
    rewrite decide_False by done. case_decide; [done|]. by right. }
  destruct He as [He|[(-> & H0 & Hd)|[-> Hnone]]].
  - by apply Hrun.
  - unfold typeFindings. rewrite !decide_False by done. by left.
  - apply Hrun. unfold runFindings, validateRoleRun, validated.
    case_decide; simpl; rewrite Hnone; by apply list_elem_of_singleton.
Qed.
End more_loading.

(** ** The index by name and the constant templates *)

Lemma index_last (rs : Roles) (idx0 : gmap string Role) (name : string) :
  foldl (λ idx r, <[r_Name r := r]> idx) idx0 rs !! name
  = match last (filter (λ r, r_Name r = name) rs) with
    | Some r => Some r
    | None => idx0 !! name
    end.
Proof.
  revert idx0. induction rs as [|r rs IH]; intros idx0; [done|].
  cbn [foldl]. rewrite IH, filter_cons. case_decide as Hname.
  - rewrite last_cons. destruct (last (filter _ rs)); [done|].
    by rewrite <- Hname, lookup_insert_eq.
  - destruct (last (filter _ rs)); [done|]. by rewrite lookup_insert_ne.
Qed.

Section more_passes.
Context {V : ValidationPkg} {M : ModelPkg} {order : MapRange} {L : LoaderEnv}.

(** X12. In a manifest that [LoadRoleManifest] returns, [LookupRole]
    finds under a name the last role of the manifest that bears it, and
    nothing for a name no role bears: of two roles with one name, the
    later one shadows the earlier one without any finding. *)
Theorem LoadRoleManifest_index_last (path : string) (releases : list Release)
    (m : RoleManifest) :
  LoadRoleManifest path releases = Some (Some m, None) →
  ∀ name, LookupRole m name = last (filter (λ r, r_Name r = name) (m_Roles m)).
Proof.
  intros Hload name.
  destruct (LoadRoleManifest_returned path releases m Hload)
    as (contents & mapped & roles & configuration & gconf & _ & _ & _ & _ & -> & _).
  unfold LookupRole. cbn [m_rolesByName m_Roles]. rewrite index_last.
  by destruct (last _).
Qed.

Lemma constantTemplate_inj (p1 p2 t1 t2 : string) :
  constantTemplate p1 t1 = constantTemplate p2 t2 → p1 = p2 ∧ t1 = t2.
Proof.
  unfold constantTemplate, validation.Invalid. intros [= Ht Hp].
  split; [|done]. by apply quoted_inj in Hp.
Qed.

Lemma validateNonTemplates_char (m : RoleManifest) (gconf : Configuration) :
  m_Configuration m = Some gconf →
  validateNonTemplates m
  = Some (omap (λ '(property, template),
                  match parseTemplate template with
                  | inl [] => Some (constantTemplate property template)
                  | _ => None
                  end) (map_range_nil (conf_Templates gconf))).
Proof.
  intros Hconf. unfold validateNonTemplates. rewrite Hconf. cbn [mbind option_bind].
  f_equal. generalize (map_range_nil (conf_Templates gconf)). intros l.
  assert (∀ acc : ErrorList,
    foldl (λ allErrs '(property, template),
             match parseTemplate template with
             | inr _ => allErrs
             | inl varsInTemplate =>
                 if decide (length varsInTemplate = 0)
                 then allErrs ++ [validation.Invalid "configuration.templates"
                                    (VStr template)
                                    ("Using '" +:+ property +:+ "' as a constant")]
                 else allErrs
             end) acc l
    = acc ++ omap (λ '(property, template),
                     match parseTemplate template with
                     | inl [] => Some (constantTemplate property template)
                     | _ => None
                     end) l) as Hgen.
  { induction l as [|[property template] l IH]; intros acc; [by rewrite app_nil_r|].
    rewrite omap_cons_app. cbn [foldl]. rewrite IH.
    destruct (parseTemplate template) as [[|x vars]|err]; simpl;
      by rewrite <- ?app_assoc. }
  apply (Hgen []).
Qed.

(** X13. [validateNonTemplates] panics exactly on a manifest without
    configuration. Otherwise its findings are, once each and whatever the
    order in which the templates are ranged over, those of the global
    templates that parse and refer to no variable; a template that does
    not parse is never reported. *)
Theorem validateNonTemplates_constants (m : RoleManifest) :
  match m_Configuration m with
  | None => validateNonTemplates m = None
  | Some gconf =>
      ∃ errs,
        validateNonTemplates m = Some errs ∧
        NoDup errs ∧
        ∀ e, e ∈ errs ↔
             ∃ property template,
               lookup_nil (conf_Templates gconf) property = Some template ∧
               parseTemplate template = inl [] ∧
               e = constantTemplate property template
  end.
Proof.
  destruct (m_Configuration m) as [gconf|] eqn:Hconf;
    [|unfold validateNonTemplates; by rewrite Hconf].
  eexists. split; [by apply validateNonTemplates_char|].
  assert (Hin : ∀ property template,
    (property, template) ∈ map_range_nil (conf_Templates gconf) ↔
    lookup_nil (conf_Templates gconf) property = Some template).
  { intros property template. rewrite map_range_nil_perm, elem_of_map_to_list.
    by destruct (conf_Templates gconf). }
  assert (Hnd : NoDup (map_range_nil (conf_Templates gconf))).
  { rewrite map_range_nil_perm. apply NoDup_map_to_list. }
  split.
  - revert Hnd. generalize (map_range_nil (conf_Templates gconf)). intros l.
    induction l as [|[property template] l IH]; intros Hnd; [constructor|].
    apply NoDup_cons in Hnd as [Hx Hnd]. rewrite omap_cons_app.
    destruct (parseTemplate template) as [[|x vars]|err] eqn:Hparse; simpl; try by apply IH.
    constructor; [|by apply IH].
    intros ([p t] & Hpt & Hmem)%list_elem_of_omap.
    destruct (parseTemplate t) as [[|? ?]|?]; try done.
    assert (Heq : constantTemplate p t = constantTemplate property template) by congruence.
    apply constantTemplate_inj in Heq as [-> ->]. done.
  - intros e. rewrite list_elem_of_omap. split.
    + intros ([property template] & Hpt & He). apply Hin in Hpt.
      destruct (parseTemplate template) as [[|? ?]|?] eqn:Hparse; try done.
      injection He as <-. by exists property, template.
    + intros (property & template & Hl & Hparse & ->). exists (property, template).
      split; [by apply Hin|]. by rewrite Hparse.
Qed.
End more_passes.

(** ** The scripts of a role *)

Lemma foldM_app {A S : Type} (body : S → A → option S) (s : S) (l1 l2 : list A) :
  foldM body s (l1 ++ l2) = s' ← foldM body s l1; foldM body s' l2.
Proof.
  revert s. induction l1 as [|a l1 IH]; intros s; [done|].
  cbn [app foldM]. destruct (body s a) as [s'|]; [|done]. cbn [mbind option_bind]. apply IH.
Qed.

Section script_signatures.
Context {S : SignatureEnv}.

Lemma scriptPaths_fold (dir : string) (l : list string) (acc : gmap string string)
    (script : string) :
  foldl (λ result script,
           if filepath_IsAbs script then result
           else <[script := filepath_Join dir script]> result) acc l !! script
  = if decide (script ∈ l ∧ filepath_IsAbs script = false)
    then Some (filepath_Join dir script) else acc !! script.
Proof.
  revert acc. induction l as [|s l IH]; intros acc.
  - cbn [foldl]. rewrite decide_False; [done|]. by intros [?%elem_of_nil _].
  - cbn [foldl]. rewrite IH. destruct (decide (script ∈ l ∧ filepath_IsAbs script = false))
      as [[Hin Habs]|Hno].
    + rewrite decide_True; [done|]. split; [by right|done].
    + destruct (decide (s = script)) as [->|Hne].
      * destruct (filepath_IsAbs script) eqn:Habs.
        -- rewrite decide_False; [done|]. by intros [_ ?].
        -- rewrite lookup_insert_eq, decide_True; [done|]. split; [by left|done].
      * rewrite decide_False.
        -- destruct (filepath_IsAbs s); [done|]. by rewrite lookup_insert_ne.
        -- intros [[?|?]%elem_of_cons ?]; [done|]. by apply Hno.
Qed.

Lemma GetScriptPaths_flat (r : Role) :
  GetScriptPaths r
  = foldM (λ result script,
             if filepath_IsAbs script then Some result
             else
               ref ← r_rolesManifest r;
               Some (<[script := filepath_Join (filepath_Dir (ref_manifestFilePath ref)) script]>
                       result))
      (∅ : gmap string string) (roleScripts r).
Proof.
  unfold GetScriptPaths, roleScripts. rewrite foldM_app. cbn [foldM].
  destruct (foldM _ ∅ (r_EnvironScripts r)) as [s1|]; [|done]. cbn [mbind option_bind].
  rewrite foldM_app.
  destruct (foldM _ s1 (r_Scripts r)) as [s2|]; [|done]. cbn [mbind option_bind].
  by destruct (foldM _ s2 (r_PostConfigScripts r)).
Qed.

(** X14. For a role that refers to its manifest, [GetScriptPaths] maps
    exactly the scripts of the three lists that are not absolute paths,
    each to itself joined to the directory of the manifest file; a script
    listed twice has one entry. Without manifest the call panics at the
    first script that is not absolute, and gives the empty map when there
    is none. *)
Theorem GetScriptPaths_relative_scripts (r : Role) :
  match r_rolesManifest r with
  | Some ref =>
      ∃ paths,
        GetScriptPaths r = Some paths ∧
        ∀ script path,
          paths !! script = Some path ↔
          script ∈ roleScripts r ∧ filepath_IsAbs script = false ∧
          path = filepath_Join (filepath_Dir (ref_manifestFilePath ref)) script
  | None =>
      GetScriptPaths r
      = if decide (Forall (λ script, filepath_IsAbs script = true) (roleScripts r))
        then Some ∅ else None
  end.
Proof.
  rewrite GetScriptPaths_flat. destruct (r_rolesManifest r) as [ref|].
  - eexists. split.
    + apply foldM_pure with
        (g := λ result script,
                if filepath_IsAbs script then result
                else <[script := filepath_Join (filepath_Dir (ref_manifestFilePath ref)) script]>
                       result).
      intros s a _. by destruct (filepath_IsAbs a).
    + intros script path. rewrite scriptPaths_fold. case_decide as Hc.
      * split; [intros [= <-]; by destruct Hc|]. by intros (_ & _ & ->).
      * rewrite lookup_empty. split; [done|]. intros (? & ? & _). by destruct Hc.
  - generalize (∅ : gmap string string). induction (roleScripts r) as [|s l IH]; intros acc.
    + cbn [foldM]. by rewrite decide_True by constructor.
    + cbn [foldM]. destruct (filepath_IsAbs s) eqn:Habs; cbn [mbind option_bind].
      * rewrite IH. case_decide as Hl.
        -- rewrite decide_True; [done|]. by constructor.
        -- rewrite decide_False; [done|]. by intros [_ ?]%Forall_cons.
      * rewrite decide_False; [done|]. intros [? _]%Forall_cons. congruence.
Qed.

Lemma scriptBytes_failed (l : list string) (err : error) :
  foldl (λ acc filename,
           match acc with
           | inr err => inr err
           | inl hasher =>
               let hasher := hasher +:+ filename in
               match readFile filename with
               | inr err => inr err
               | inl content => inl (hasher +:+ content)
               end
           end) (inr err) l = inr err.
Proof. induction l as [|f l IH]; simpl; [done|apply IH]. Qed.

Lemma scriptBytes_from (l : list string) (hasher : string) :
  foldl (λ acc filename,
           match acc with
           | inr err => inr err
           | inl hasher =>
               let hasher := hasher +:+ filename in
               match readFile filename with
               | inr err => inr err
               | inl content => inl (hasher +:+ content)
               end
           end) (inl hasher) l
  = match scriptBytes l with
    | inl bytes => inl (hasher +:+ bytes)
    | inr err => inr err
    end.
Proof.
  unfold scriptBytes. revert hasher. induction l as [|f l IH]; intros hasher.
  - simpl. by rewrite string_app_nil_r.
  - cbn [foldl]. cbv zeta. destruct (readFile f) as [content|err].
    + rewrite IH. rewrite (IH (("" +:+ f) +:+ content)).
      destruct (foldl _ (inl "") l) as [bytes|err]; [|done].
      change ("" +:+ f) with f. by rewrite !string_app_assoc.
    + by rewrite !scriptBytes_failed.
Qed.

Lemma scriptBytes_cons (f : string) (l : list string) :
  scriptBytes (f :: l)
  = match readFile f with
    | inr err => inr err
    | inl content =>
        match scriptBytes l with
        | inl bytes => inl (f +:+ content +:+ bytes)
        | inr err => inr err
        end
    end.
Proof.
  unfold scriptBytes at 1. cbn [foldl]. cbv zeta. destruct (readFile f) as [content|err].
  - rewrite scriptBytes_from. destruct (scriptBytes l); [|done]. by rewrite !string_app_assoc.
  - apply scriptBytes_failed.
Qed.

Lemma foldl_app_from (acc : string) (l : list string) :
  foldl String.app acc l = acc +:+ foldl String.app "" l.
Proof.
  revert acc. induction l as [|x l IH]; intros acc; simpl.
  - by rewrite string_app_nil_r.
  - rewrite IH, (IH ("" +:+ x)). change ("" +:+ x) with x. by rewrite string_app_assoc.
Qed.

Lemma scriptBytes_readable (files contents : list string) :
  Forall2 (λ f c, readFile f = inl c) files contents →
  scriptBytes files = inl (namesAndContents files contents).
Proof.
  induction 1 as [|f c files contents Hf _ IH]; [done|].
  rewrite scriptBytes_cons, Hf, IH. unfold namesAndContents. cbn [zip_with foldl].
  rewrite (foldl_app_from ("" +:+ (f +:+ c))). change ("" +:+ (f +:+ c)) with (f +:+ c).
  by rewrite string_app_assoc.
Qed.

Lemma scriptBytes_unreadable (before after : list string) (f : string) (err : error) :
  Forall (λ g, ∃ c, readFile g = inl c) before →
  readFile f = inr err →
  scriptBytes (before ++ f :: after) = inr err.
Proof.
  intros Hb Hf. induction Hb as [|g before [c Hg] _ IH].
  - by rewrite app_nil_l, scriptBytes_cons, Hf.
  - rewrite <- app_comm_cons, scriptBytes_cons, Hg, IH. done.
Qed.

(** X15. [GetScriptSignatures] visits the paths of the scripts in sorted
    order, whatever the order in which the map of the paths is ranged
    over. When every file can be read, the signature is the digest of the
    names, each followed by the content of the file; otherwise the call
    returns the error of the first file, in sorted order, that cannot be
    read, with an empty signature. *)
Theorem GetScriptSignatures_sorted_files {order : MapRange} (r : Role)
    (paths : gmap string string) :
  GetScriptPaths r = Some paths →
  let files := sort_Strings (snd <$> map_to_list paths) in
  (∀ contents,
     Forall2 (λ f c, readFile f = inl c) files contents →
     GetScriptSignatures r = Some (sha1_hex (namesAndContents files contents), None)) ∧
  (∀ before f after err,
     files = before ++ f :: after →
     Forall (λ g, ∃ c, readFile g = inl c) before →
     readFile f = inr err →
     GetScriptSignatures r = Some ("", Some err)).
Proof.
  intros Hpaths files.
  assert (Hfiles : sort_Strings (snd <$> map_range paths) = files).
  { apply sort_Strings_unique. by rewrite map_range_perm. }
  unfold GetScriptSignatures. rewrite Hpaths. cbn [mbind option_bind]. rewrite Hfiles.
  split.
  - intros contents Hread. by rewrite (scriptBytes_readable _ _ Hread).
  - intros before f after err -> Hb Hf. by rewrite (scriptBytes_unreadable _ _ _ _ Hb Hf).
Qed.
End script_signatures.

(** ** Signatures do not depend on iteration or sorting order *)

Lemma NoDup_fmap_elem_inj {A B : Type} (f : A → B) (l : list A) (x y : A) :
  NoDup (f <$> l) → x ∈ l → y ∈ l → f x = f y → x = y.
Proof.
  intros Hnd [i Hi]%list_elem_of_lookup [j Hj]%list_elem_of_lookup Hf.
  assert (i = j) as ->; [|congruence].
  apply (NoDup_lookup (f <$> l) i j (f x)); [done| |].
  - by rewrite list_lookup_fmap, Hi.
  - by rewrite list_lookup_fmap, Hj, Hf.
Qed.

Lemma sorted_by_key_unique {A B : Type} (key : A → string) (val : A → B) (l1 l2 : list A) :
  l1 ≡ₚ l2 →
  Sorted (λ x y, String.ltb (key y) (key x) = false) l1 →
  Sorted (λ x y, String.ltb (key y) (key x) = false) l2 →
  (∀ x y, x ∈ l1 → y ∈ l1 → key x = key y → val x = val y) →
  val <$> l1 = val <$> l2.
Proof.
  intros Hperm Hs1 Hs2 Hval.
  assert (Hkeys : key <$> l1 = key <$> l2).
  { apply (Sorted_unique String.le).
    - eapply Sorted_fmap; [|exact Hs1]. intros x y. apply ltb_false_le.
    - eapply Sorted_fmap; [|exact Hs2]. intros x y. apply ltb_false_le.
    - by apply fmap_Permutation. }
  apply list_eq. intros i. rewrite !list_lookup_fmap.
  pose proof (f_equal (λ l, l !! i) Hkeys) as Hi. simpl in Hi. rewrite !list_lookup_fmap in Hi.
  destruct (l1 !! i) as [x|] eqn:H1, (l2 !! i) as [y|] eqn:H2; try done. simpl in *.
  f_equal. apply Hval; [by eapply list_elem_of_lookup_2| |congruence].
  rewrite Hperm. by eapply list_elem_of_lookup_2.
Qed.

Section determinism.
Context {S : SignatureEnv}.

Lemma GetScriptSignatures_any_order (order1 order2 : MapRange) (r : Role) :
  GetScriptSignatures (order := order1) r = GetScriptSignatures (order := order2) r.
Proof.
  unfold GetScriptSignatures. destruct (GetScriptPaths r) as [paths|]; [|done].
  cbn [mbind option_bind].
  rewrite (sort_Strings_unique (snd <$> map_range (MapRange := order1) paths)
             (snd <$> map_range (MapRange := order2) paths)); [done|].
  apply fmap_Permutation. by rewrite !map_range_perm.
Qed.

Lemma templatePart_any_order (order1 order2 : MapRange) (r : Role) :
  templatePart (order := order1) r = templatePart (order := order2) r.
Proof.
  unfold templatePart. destruct (r_Configuration r) as [conf|]; [|done].
  destruct (conf_Templates conf) as [t|]; [|done].
  unfold templateSignature, templateLines. do 3 f_equal.
  apply sort_Strings_unique, fmap_Permutation. simpl. by rewrite !map_range_perm.
Qed.

(** X16. The result of [GetRoleDevVersion] depends neither on the order
    in which maps are ranged over nor, as long as packages of the role
    with one name have one hash, on the algorithm of [sort.Sort]. *)
Theorem GetRoleDevVersion_deterministic (order1 order2 : MapRange)
    (sort1 sort2 : SortInterface Package Packages_Less) (r : Role) :
  (∀ p q, p ∈ r_Jobs r ≫= job_Packages → q ∈ r_Jobs r ≫= job_Packages →
          pkg_Name p = pkg_Name q → pkg_SHA1 p = pkg_SHA1 q) →
  GetRoleDevVersion (order := order1) (sortPackages := sort1) r
  = GetRoleDevVersion (order := order2) (sortPackages := sort2) r.
Proof.
  intros Hpkg. unfold GetRoleDevVersion.
  rewrite (roleSignatureText_parts (order := order1) (sortPackages := sort1)).
  rewrite (roleSignatureText_parts (order := order2) (sortPackages := sort2)).
  rewrite (GetScriptSignatures_any_order order1 order2).
  destruct (GetScriptSignatures r) as [[sig [err|]]|]; [done| |done].
  cbn [mbind option_bind]. do 4 f_equal. unfold signatureParts.
  rewrite (templatePart_any_order order1 order2). f_equal. f_equal.
  apply (sorted_by_key_unique pkg_Name pkg_SHA1).
  - by rewrite !sort_Sort_perm.
  - apply (sort_Sort_sorted (SortInterface := sort1)).
  - apply (sort_Sort_sorted (SortInterface := sort2)).
  - intros p q Hp Hq. rewrite sort_Sort_perm in Hp, Hq. by apply Hpkg.
Qed.
End determinism.

Section role_set_more.
Context {S : SignatureEnv} {order : MapRange}
  {sortPackages : SortInterface Package Packages_Less}.

Lemma GetRoleManifestDevPackageVersion_result (sortRoles : SortInterface Role Roles_Less)
    (m : RoleManifest) (h : store) (roles : slice) (extra : string) (elems : list Role) :
  slice_elems h roles = Some elems →
  (GetRoleManifestDevPackageVersion m h roles extra).2
  = (text ← roleSetBytes extra (sort_Sort elems);
     match text with
     | inr err => Some ("", Some err)
     | inl hasher => Some (sha1_hex hasher, None)
     end).
Proof.
  intros Hs. unfold GetRoleManifestDevPackageVersion. rewrite Hs. unfold append_to_empty.
  cbn [snd]. rewrite slice_elems_full. cbn [from_option id].
  rewrite slice_store_full.
  rewrite <- (Permutation_length (sort_Sort_perm elems)).
  by rewrite slice_elems_full.
Qed.

(** X17. For roles with distinct names, the result of
    [GetRoleManifestDevPackageVersion] is the same for any rearrangement of
    the roles passed, whatever the receiver, the store and the sorting
    algorithm. *)
Theorem GetRoleManifestDevPackageVersion_any_order
    (sortRoles1 sortRoles2 : SortInterface Role Roles_Less) (m1 m2 : RoleManifest)
    (h1 h2 : store) (roles1 roles2 : slice) (extra : string) (elems1 elems2 : list Role) :
  slice_elems h1 roles1 = Some elems1 →
  slice_elems h2 roles2 = Some elems2 →
  elems1 ≡ₚ elems2 →
  NoDup (r_Name <$> elems1) →
  (GetRoleManifestDevPackageVersion (sortRoles := sortRoles1) m1 h1 roles1 extra).2
  = (GetRoleManifestDevPackageVersion (sortRoles := sortRoles2) m2 h2 roles2 extra).2.
Proof.
  intros Hs1 Hs2 Hperm Hnd.
  rewrite (GetRoleManifestDevPackageVersion_result sortRoles1 m1 h1 roles1 extra elems1 Hs1).
  rewrite (GetRoleManifestDevPackageVersion_result sortRoles2 m2 h2 roles2 extra elems2 Hs2).
  assert (Hsorted : sort_Sort (SortInterface := sortRoles1) elems1
                    = sort_Sort (SortInterface := sortRoles2) elems2).
  { rewrite <- (list_fmap_id (sort_Sort (SortInterface := sortRoles1) elems1)).
    rewrite <- (list_fmap_id (sort_Sort (SortInterface := sortRoles2) elems2)).
    apply (sorted_by_key_unique r_Name id).
    - by rewrite !sort_Sort_perm.
    - apply (sort_Sort_sorted (SortInterface := sortRoles1)).
    - apply (sort_Sort_sorted (SortInterface := sortRoles2)).
    - intros x y Hx Hy. rewrite sort_Sort_perm in Hx, Hy.
      by apply (NoDup_fmap_elem_inj r_Name elems1). }
  by rewrite Hsorted.
Qed.
End role_set_more.

(** ** The wording of the undeclared variables, swaps, and the salt *)

Section template_wording.
Context {M : ModelPkg} {order : MapRange}.

(** X18. On a resolved manifest the findings of [validateTemplateUsage]
    for the templates of the roles come before those for the global
    templates. A variable without declaration that a template of a role
    refers to is reported in the wording of the role templates, also when
    a global template refers to it too; the wording of the global
    templates is for the variables only global templates refer to. *)
Theorem validateTemplateUsage_wording (m : RoleManifest) :
  resolved m →
  ∃ new1 new2,
    validateTemplateUsage m
    = Some ((undeclaredInRole <$> new1) ++ (undeclaredInGlobal <$> new2)) ∧
    (∀ X, X ∈ new1 ↔
          referencedByRole m X ∧ MakeMapOfVariables m !! X = None ∧
          X ≠ "IP_ADDRESS" ∧ X ≠ "DNS_RECORD_NAME") ∧
    (∀ X, X ∈ new2 ↔
          referencedByGlobal m X ∧ ¬ referencedByRole m X ∧
          MakeMapOfVariables m !! X = None ∧
          X ≠ "IP_ADDRESS" ∧ X ≠ "DNS_RECORD_NAME").
Proof.
  intros [[conf Hconf] Hroles]. unfold validateTemplateUsage.
  fold (initialDeclared m).
  rewrite (scanRoles_checkVariables undeclaredInRole m _ Hroles). simpl.
  rewrite Hconf. simpl.
  rewrite (scanGlobals_checkVariables undeclaredInGlobal m conf _ Hconf).
  destruct (checkVariables_spec undeclaredInRole (roleVars m) (initialDeclared m) [])
    as (new1 & D1 & -> & Hnd1 & Hnew1 & HD1).
  destruct (checkVariables_spec undeclaredInGlobal (globalVars m) D1
              ([] ++ (undeclaredInRole <$> new1)))
    as (new2 & D2 & -> & Hnd2 & Hnew2 & HD2).
  exists new1, new2. simpl. split; [done|]. split.
  - intros X. by rewrite Hnew1, referencedByRole_roleVars, initialDeclared_None.
  - intros X. rewrite Hnew2, HD1, referencedByRole_roleVars, referencedByGlobal_globalVars,
      initialDeclared_None. tauto.
Qed.
End template_wording.

Lemma list_delete_insert_same {A : Type} (l : list A) (i : nat) (x : A) :
  delete i (<[i := x]> l) = delete i l.
Proof.
  revert i. induction l as [|a l IH]; intros [|i]; simpl; [done..|].
  by rewrite IH.
Qed.

Lemma swap_Permutation {A : Type} (l : list A) (i j : nat) (x y : A) :
  l !! i = Some x → l !! j = Some y → <[j := x]> (<[i := y]> l) ≡ₚ l.
Proof.
  revert i j. induction l as [|a l IH]; intros i j Hi Hj; [done|].
  destruct i as [|i], j as [|j]; simpl in *; simplify_eq.
  - done.
  - rewrite (delete_Permutation l j y Hj) at 2.
    rewrite perm_swap. apply Permutation_skip.
    rewrite (delete_Permutation (<[j := x]> l) j x) by (apply list_lookup_insert_eq; by eapply lookup_lt_Some).
    apply Permutation_skip. by rewrite list_delete_insert_same.
  - rewrite (delete_Permutation l i x Hi) at 2.
    rewrite perm_swap. apply Permutation_skip.
    rewrite (delete_Permutation (<[i := y]> l) i y) by (apply list_lookup_insert_eq; by eapply lookup_lt_Some).
    apply Permutation_skip. by rewrite list_delete_insert_same.
  - apply Permutation_skip. by apply IH.
Qed.

Lemma swap_exchanges {A : Type} (l : list A) (i j : nat) :
  match (x ← l !! i; y ← l !! j; Some (<[j := x]> (<[i := y]> l))) with
  | Some l' =>
      i < length l ∧ j < length l ∧
      l' ≡ₚ l ∧ length l' = length l ∧
      l' !! i = l !! j ∧ l' !! j = l !! i ∧
      (∀ k, k ≠ i → k ≠ j → l' !! k = l !! k) ∧
      (x ← l' !! i; y ← l' !! j; Some (<[j := x]> (<[i := y]> l'))) = Some l
  | None => ¬ (i < length l ∧ j < length l)
  end.
Proof.
  destruct (l !! i) as [x|] eqn:Hi; cbn [mbind option_bind];
    [|intros [?%lookup_lt_is_Some_2 _]; rewrite Hi in *; by eapply is_Some_None].
  destruct (l !! j) as [y|] eqn:Hj; cbn [mbind option_bind];
    [|intros [_ ?%lookup_lt_is_Some_2]; rewrite Hj in *; by eapply is_Some_None].
  pose proof (lookup_lt_Some _ _ _ Hi) as Hli. pose proof (lookup_lt_Some _ _ _ Hj) as Hlj.
  assert (Hi' : <[j := x]> (<[i := y]> l) !! i = Some y).
  { destruct (decide (i = j)) as [->|Hne].
    - rewrite list_lookup_insert_eq by (by rewrite length_insert). congruence.
    - rewrite list_lookup_insert_ne by done. by rewrite list_lookup_insert_eq. }
  assert (Hj' : <[j := x]> (<[i := y]> l) !! j = Some x).
  { by rewrite list_lookup_insert_eq by (by rewrite length_insert). }
  split; [done|]. split; [done|]. split; [by apply swap_Permutation|].
  split; [by rewrite !length_insert|]. split; [congruence|]. split; [congruence|]. split.
  - intros k Hki Hkj. by rewrite !list_lookup_insert_ne.
  - rewrite Hi', Hj'. cbn [mbind option_bind]. f_equal. apply list_eq. intros k.
    destruct (decide (k = j)) as [->|Hkj].
    + rewrite list_lookup_insert_eq by (by rewrite !length_insert). done.
    + rewrite list_lookup_insert_ne by done. destruct (decide (k = i)) as [->|Hki].
      * rewrite list_lookup_insert_eq by (by rewrite !length_insert). done.
      * by rewrite !list_lookup_insert_ne.
Qed.

(** X20. [Swap] of the two sortable slice types panics exactly when an
    index is out of range; otherwise it exchanges the elements at the two
    indices and leaves the others in place, so the slice keeps its length
    and its elements, and swapping again restores it. *)
Theorem Swap_exchanges :
  (∀ (roles : Roles) (i j : nat),
     match Roles_Swap roles i j with
     | Some roles' =>
         i < Roles_Len roles ∧ j < Roles_Len roles ∧
         roles' ≡ₚ roles ∧ Roles_Len roles' = Roles_Len roles ∧
         roles' !! i = roles !! j ∧ roles' !! j = roles !! i ∧
         (∀ k, k ≠ i → k ≠ j → roles' !! k = roles !! k) ∧
         Roles_Swap roles' i j = Some roles
     | None => ¬ (i < Roles_Len roles ∧ j < Roles_Len roles)
     end) ∧
  (∀ (confVars : list ConfigurationVariable) (i j : nat),
     match ConfigurationVariableSlice_Swap confVars i j with
     | Some confVars' =>
         i < ConfigurationVariableSlice_Len confVars ∧
         j < ConfigurationVariableSlice_Len confVars ∧
         confVars' ≡ₚ confVars ∧
         ConfigurationVariableSlice_Len confVars' = ConfigurationVariableSlice_Len confVars ∧
         confVars' !! i = confVars !! j ∧ confVars' !! j = confVars !! i ∧
         (∀ k, k ≠ i → k ≠ j → confVars' !! k = confVars !! k) ∧
         ConfigurationVariableSlice_Swap confVars' i j = Some confVars
     | None =>
         ¬ (i < ConfigurationVariableSlice_Len confVars ∧
            j < ConfigurationVariableSlice_Len confVars)
     end).
Proof. split; intros l i j; apply swap_exchanges. Qed.

Section role_set_salt.
Context {S : SignatureEnv} {order : MapRange}
  {sortPackages : SortInterface Package Packages_Less}
  {sortRoles : SortInterface Role Roles_Less}.

Lemma roleSetBytes_failed (roles : list Role) (err : error) :
  foldM (λ acc role,
           match acc with
           | inr err => Some (inr err)
           | inl hasher =>
               '(version, err) ← GetRoleDevVersion role;
               match err with
               | Some err => Some (inr err)
               | None => Some (inl (hasher +:+ version))
               end
           end) (inr err) roles = Some (inr err).
Proof. induction roles as [|r roles IH]; [done|]. cbn [foldM mbind option_bind]. apply IH. Qed.

Lemma roleSetBytes_versions (hasher : string) (roles : list Role) (versions : list string) :
  Forall2 (λ r v, GetRoleDevVersion r = Some (v, None)) roles versions →
  roleSetBytes hasher roles = Some (inl (hasher +:+ foldl String.app "" versions)).
Proof.
  intros Hall. revert hasher. induction Hall as [|r v roles versions Hr _ IH]; intros hasher.
  - simpl. by rewrite string_app_nil_r.
  - unfold roleSetBytes in *. cbn [foldM]. rewrite Hr. cbn [mbind option_bind].
    rewrite IH. cbn [foldl]. rewrite (foldl_app_from ("" +:+ v)).
    change ("" +:+ v) with v. by rewrite string_app_assoc.
Qed.

Lemma roleSetBytes_error (hasher : string) (before after : list Role) (r : Role)
    (sig : string) (err : error) :
  Forall (λ r, ∃ v, GetRoleDevVersion r = Some (v, None)) before →
  GetRoleDevVersion r = Some (sig, Some err) →
  roleSetBytes hasher (before ++ r :: after) = Some (inr err).
Proof.
  intros Hb Hr. revert hasher. induction Hb as [|r0 before [v Hv] _ IH]; intros hasher.
  - unfold roleSetBytes. cbn [app foldM]. rewrite Hr. cbn [mbind option_bind].
    apply roleSetBytes_failed.
  - unfold roleSetBytes in *. rewrite <- app_comm_cons. cbn [foldM]. rewrite Hv.
    cbn [mbind option_bind]. apply IH.
Qed.

(** X19. [GetRoleManifestDevPackageVersion] hashes the salt first, then
    the versions of the roles in the order of their names: when every
    role has a version, the result is the digest of the salt followed by
    the versions; otherwise the error of the first role, in that order,
    whose version fails is returned with an empty signature. *)
Theorem GetRoleManifestDevPackageVersion_salt_first (m : RoleManifest) (h : store)
    (roles : slice) (extra : string) (elems : list Role) :
  slice_elems h roles = Some elems →
  (∀ versions,
     Forall2 (λ r v, GetRoleDevVersion r = Some (v, None)) (sort_Sort elems) versions →
     (GetRoleManifestDevPackageVersion m h roles extra).2
     = Some (sha1_hex (extra +:+ foldl String.app "" versions), None)) ∧
  (∀ before r after sig err,
     sort_Sort elems = before ++ r :: after →
     Forall (λ r, ∃ v, GetRoleDevVersion r = Some (v, None)) before →
     GetRoleDevVersion r = Some (sig, Some err) →
     (GetRoleManifestDevPackageVersion m h roles extra).2 = Some ("", Some err)).
Proof.
  intros Hs. rewrite (GetRoleManifestDevPackageVersion_result sortRoles m h roles extra elems Hs).
  split.
  - intros versions Hv. by rewrite (roleSetBytes_versions _ _ _ Hv).
  - intros before r after sig err -> Hb Hr. by rewrite (roleSetBytes_error _ _ _ _ _ _ Hb Hr).
Qed.
End role_set_salt.

(** ** The command router *)

(** X21. [CommandRouter] makes no call exactly for a command whose full
    name is none of the eleven it knows (there is no default case, the
    command is ignored without a message); and the call it makes depends
    on the context only through the full name of the command and the
    flags of that command. *)
Theorem CommandRouter_known_commands (c c' : app.Context) :
  (app.CommandRouter c = None ↔ app.Command_FullName c ∉ app.routedCommands) ∧
  (app.agree c c' → app.CommandRouter c = app.CommandRouter c').
Proof.
  split.
  - unfold app.CommandRouter, app.routedCommands.
    repeat (match goal with
            | |- context [decide (?x = ?y)] => destruct (decide (x = y)) as [Hcmd|?]
            end;
            [rewrite Hcmd; split; [intros Heq; discriminate Heq|];
             intros Hn; exfalso; apply Hn; apply (bool_decide_unpack _); vm_compute; exact I|]).
    split; [|done]. intros _ Hin.
    repeat (apply elem_of_cons in Hin as [Hin|Hin]; [done|]).
    by apply elem_of_nil in Hin.
  - intros [Hname Hflags]. unfold app.CommandRouter.
    destruct c as [name str int bool], c' as [name' str' int' bool'].
    cbn [app.Command_FullName app.String app.Int app.Bool] in *. subst name'.
    repeat (match goal with
            | |- context [decide (?x = ?y)] => destruct (decide (x = y)) as [Hcmd|?]
            end;
            [rewrite Hcmd in Hflags; vm_compute in Hflags;
             destruct Hflags as (Hs & Hi & Hb);
             repeat match goal with
                    | H : Forall _ (_ :: _) |- _ => apply Forall_cons in H as [? H]
                    end;
             congruence|]).
    done.
Qed.

(** ** Further concrete examples *)

Section more_examples.
#[local] Existing Instances Sample.validationPkg Sample.modelPkg Sample.mapRange
  Sample.signatureEnv Sample.sortPackages Sample.sortRoles.
Import Inputs MoreInputs.

Lemma normalizeFlightStage_fills_default_witness :
  r_Run (roleOf "api" "" (Some (runWith None []))) = Some (runWith None []) ∧
  ∃ role' run' errs,
    normalizeFlightStage (roleOf "api" "" (Some (runWith None []))) = Some (role', errs) ∧
    role' = normalizedRole (roleOf "api" "" (Some (runWith None []))) ∧
    r_Run role' = Some run' ∧
    run_FlightStage run' ≠ "" ∧
    (run_FlightStage (runWith None []) ≠ "" → role' = roleOf "api" "" (Some (runWith None []))) ∧
    (errs = [] ↔ run_FlightStage (runWith None []) ∈ knownStages) ∧
    normalizeFlightStage role' = Some (role', errs).
Proof.
  split; [reflexivity|].
  exact (normalizeFlightStage_fills_default (roleOf "api" "" (Some (runWith None [])))
           (runWith None []) eq_refl).
Defined.

Lemma LoadRoleManifest_release_twice_witness :
  ∃ before name after,
    rel_Name <$> [release; release] = before ++ name :: after ∧
    name ∈ before ∧ NoDup before ∧
    LoadRoleManifest (L := Sample.loaderEnv goodDocument) manifestPath [release; release]
    = Some (None, Some (loadedTwice name)).
Proof.
  apply (LoadRoleManifest_release_twice (L := Sample.loaderEnv goodDocument) manifestPath
           [release; release] "" eq_refl).
  intros Hnd. apply NoDup_cons in Hnd as [Hnd _]. apply Hnd. simpl. left.
Defined.

Lemma LoadRoleManifest_returned_manifest_witness :
  ∃ m,
    LoadRoleManifest (L := Sample.loaderEnv goodDocument) manifestPath [release]
    = Some (Some m, None) ∧
    m_manifestFilePath m = manifestPath ∧
    NoDup (rel_Name <$> [release]) ∧
    (∃ gconf templates,
       m_Configuration m = Some gconf ∧ conf_Templates gconf = Some templates ∧
       Sorted (λ a b, ConfigurationVariableSlice_Less b a = false) (conf_Variables gconf)) ∧
    Forall (λ r, (r_Type r = RoleTypeBosh ∨ r_Type r = RoleTypeBoshTask) ∧
                 r_rolesManifest r = Some (mkManifestRef manifestPath (m_Configuration m)) ∧
                 Forall2 (resolvesIn [release]) (r_JobNameList r) (r_Jobs r))
      (m_Roles m).
Proof.
  eexists. split; [vm_compute; reflexivity|].
  apply (LoadRoleManifest_returned_manifest (L := Sample.loaderEnv goodDocument)).
  vm_compute. reflexivity.
Defined.

Lemma LoadRoleManifest_index_last_witness :
  ∃ m,
    LoadRoleManifest (L := Sample.loaderEnv goodDocument) manifestPath [release]
    = Some (Some m, None) ∧
    IsDevRole <$> LookupRole m "api" = Some true ∧
    ∀ name, LookupRole m name = last (filter (λ r, r_Name r = name) (m_Roles m)).
Proof.
  eexists. split; [vm_compute; reflexivity|]. split; [vm_compute; reflexivity|].
  apply (LoadRoleManifest_index_last (L := Sample.loaderEnv goodDocument) manifestPath [release]).
  vm_compute. reflexivity.
Defined.

Lemma LoadRoleManifest_reports_role_findings_witness :
  ∃ allErrs,
    LoadRoleManifest (L := Sample.loaderEnv ([implicitBosh], None)) manifestPath []
    = Some (None, Some (Err (fmt_Sprintf0 (LoaderEnv := Sample.loaderEnv ([implicitBosh], None))
                               (ErrorList_Errors allErrs)))) ∧
    validation.Required "roles[api].run" "" ∈ allErrs.
Proof.
  apply (LoadRoleManifest_reports_role_findings (L := Sample.loaderEnv ([implicitBosh], None))
           manifestPath [] "" ∅ [implicitBosh] None implicitBosh eq_refl eq_refl eq_refl).
  - by apply list_elem_of_singleton.
  - intros [H|H]; discriminate H.
  - right. right. split; reflexivity.
Defined.

Lemma GetScriptSignatures_sorted_files_witness :
  GetScriptPaths loadedRole = Some {[ "scripts/run.sh" := "/m/scripts/run.sh" ]} ∧
  GetScriptSignatures loadedRole
  = Some (sha1_hex (namesAndContents ["/m/scripts/run.sh"] ["#!/bin/sh"]), None).
Proof.
  split; [vm_compute; reflexivity|].
  refine (proj1 (GetScriptSignatures_sorted_files loadedRole
                   {[ "scripts/run.sh" := "/m/scripts/run.sh" ]} _) ["#!/bin/sh"] _).
  - vm_compute. reflexivity.
  - vm_compute. constructor; [reflexivity|constructor].
Defined.

Lemma GetRoleDevVersion_deterministic_witness :
  GetRoleDevVersion (order := Sample.mapRange) loadedRole
  = GetRoleDevVersion (order := reversedRange) loadedRole.
Proof.
  apply (GetRoleDevVersion_deterministic Sample.mapRange reversedRange
           Sample.sortPackages Sample.sortPackages loadedRole).
  intros p q Hp Hq Hname. vm_compute in Hp, Hq.
  apply elem_of_cons in Hp as [->|Hp]; [|apply list_elem_of_singleton in Hp as ->];
    (apply elem_of_cons in Hq as [->|Hq]; [|apply list_elem_of_singleton in Hq as ->]);
    first [reflexivity|discriminate Hname].
Defined.

Lemma GetRoleManifestDevPackageVersion_any_order_witness :
  (GetRoleManifestDevPackageVersion emptyManifest callerStore callerSlice "salt").2
  = (GetRoleManifestDevPackageVersion loadedManifest swappedStore callerSlice "salt").2.
Proof.
  apply (GetRoleManifestDevPackageVersion_any_order Sample.sortRoles Sample.sortRoles
           emptyManifest loadedManifest callerStore swappedStore callerSlice callerSlice "salt"
           [roleOf "web" "" None; roleOf "api" "" None]
           [roleOf "api" "" None; roleOf "web" "" None] eq_refl eq_refl).
  - apply perm_swap.
  - apply (bool_decide_unpack _). vm_compute. exact I.
Defined.
Lemma validateTemplateUsage_wording_witness :
  resolved loadedManifest ∧
  ∃ new1 new2,
    validateTemplateUsage loadedManifest
    = Some ((undeclaredInRole <$> new1) ++ (undeclaredInGlobal <$> new2)) ∧
    "X" ∈ new1 ∧ "X" ∉ new2.
Proof.
  split; [exact loadedManifest_resolved|].
  destruct (validateTemplateUsage_wording loadedManifest loadedManifest_resolved)
    as (new1 & new2 & Heq & H1 & H2).
  assert (Hrole : referencedByRole loadedManifest "X").
  { apply referencedByRole_roleVars. apply (bool_decide_unpack _). vm_compute. exact I. }
  exists new1, new2. split; [exact Heq|]. split.
  - apply H1. split; [exact Hrole|]. split; [reflexivity|]. split; discriminate.
  - intros Hin. apply H2 in Hin as (_ & Hno & _). exact (Hno Hrole).
Defined.

Lemma GetRoleManifestDevPackageVersion_salt_first_witness :
  slice_elems callerStore callerSlice = Some [roleOf "web" "" None; roleOf "api" "" None] ∧
  (GetRoleManifestDevPackageVersion emptyManifest callerStore callerSlice "salt").2
  = Some (sha1_hex ("salt" +:+ foldl String.app ""
                      [sha1_hex (nl +:+ sha1_hex ""); sha1_hex (nl +:+ sha1_hex "")]), None).
Proof.
  split; [reflexivity|].
  refine (proj1 (GetRoleManifestDevPackageVersion_salt_first emptyManifest callerStore
                   callerSlice "salt" _ eq_refl) _ _).
  vm_compute. repeat constructor.
Defined.
End more_examples.
